(** * http-proxy filters and usage reporter: a shallow embedding

    The development follows the Go sources of the proxy:
    - [tokenfilter]   : the shared-secret filter ([tokenFilter.Apply]),
    - [versioncheck]  : the version gate ([VersionChecker]),
    - [redis]         : the periodic usage reporter ([reportPeriodically],
                        [submit]),
    - [tunnelportsfilter] : the CONNECT port filter, known by its test and
                        by its description.

    Go values are modelled as the code has them: strings as [string],
    [int] as [Z] within 64 bits, [float64] as an IEEE 754 binary64 value
    ([spec_float] with precision 53), header maps and the per-device map as
    [gmap], pointers that may be nil as [option], and a panic as an explicit
    outcome. *)

From Stdlib Require Import ZArith Lia Bool List String Ascii.
From Stdlib Require Import Floats.SpecFloat.
From stdpp Require Import base gmap strings list.

Open Scope string_scope.
Open Scope Z_scope.

(** ** Go strings *)

Module strings.

(** [strings.HasPrefix(s, prefix)] *)
Definition HasPrefix (s prefix : string) : bool := String.prefix prefix s.

(** [strings.IndexByte]: position of the first [c], [None] for -1. *)
Fixpoint IndexByte (s : string) (c : ascii) : option nat :=
  match s with
  | EmptyString => None
  | String a r =>
      if Ascii.eqb a c then Some 0%nat
      else match IndexByte r c with Some i => Some (S i) | None => None end
  end.

(** [strings.LastIndexByte]: position of the last [c], [None] for -1. *)
Fixpoint LastIndexByte (s : string) (c : ascii) : option nat :=
  match s with
  | EmptyString => None
  | String a r =>
      match LastIndexByte r c with
      | Some i => Some (S i)
      | None => if Ascii.eqb a c then Some 0%nat else None
      end
  end.

(** The test [i >= 0] on the result of an index search. *)
Definition found (i : option nat) : bool :=
  match i with Some _ => true | None => false end.

(** The slices [s[:i]] and [s[i:]]. *)
Definition take (i : nat) (s : string) : string := String.substring 0 i s.
Definition drop (i : nat) (s : string) : string :=
  String.substring i (String.length s - i) s.

End strings.

(** ** Go numbers *)

Module goint.

Definition minInt64 : Z := - 2 ^ 63.
Definition maxInt64 : Z := 2 ^ 63 - 1.

Definition in_int64 (n : Z) : bool := (minInt64 <=? n) && (n <=? maxInt64).

(** Wrap-around of unsigned and signed 64-bit arithmetic. *)
Definition wrap_uint64 (n : Z) : Z := n mod 2 ^ 64.
Definition wrap_int64 (n : Z) : Z := (n + 2 ^ 63) mod 2 ^ 64 - 2 ^ 63.

End goint.

Module strconv.

(** The value of a decimal digit. *)
Definition digit (c : ascii) : option Z :=
  let n := Z.of_nat (nat_of_ascii c) in
  if (48 <=? n) && (n <=? 57) then Some (n - 48) else None.

(** The value of a run of decimal digits, continuing from [acc]. *)
Fixpoint digits (s : string) (acc : Z) : option Z :=
  match s with
  | EmptyString => Some acc
  | String c r =>
      match digit c with
      | Some d => digits r (10 * acc + d)
      | None => None
      end
  end.

(** A non-empty run of decimal digits. *)
Definition number (s : string) : option Z :=
  match s with
  | EmptyString => None
  | _ => digits s 0
  end.

End strconv.

Module float64.

Definition prec : Z := 53.
Definition emax : Z := 1024.

(** A [float64] is a binary64 datum; every value of the Go type is
    [valid]. *)
Definition t : Type := spec_float.
Definition valid (x : t) : bool := valid_binary prec emax x.

(** The float64 nearest to an integer constant. *)
Definition of_Z (n : Z) : t := binary_normalize prec emax n 0 false.

Definition mul (x y : t) : t := SFmul prec emax x y.
Definition leb (x y : t) : bool := SFleb x y.

(** The integer part of a finite value (rounding toward zero); [None] for
    NaN and the infinities. *)
Definition trunc (x : t) : option Z :=
  match x with
  | S754_zero _ => Some 0
  | S754_finite s m e => Some (cond_Zopp s (Z.shiftl (Zpos m) e))
  | S754_infinity _ | S754_nan => None
  end.

(** The values that [int] can represent. *)
Definition representable (x : t) : bool :=
  match trunc x with
  | Some n => goint.in_int64 n
  | None => false
  end.

(** The conversion [int(x)].  The language leaves the result for a value
    that [int] cannot represent to the implementation: [unrepresentable]
    is what the implementation at hand yields there. *)
Definition to_int (unrepresentable : t -> Z) (x : t) : Z :=
  match trunc x with
  | Some n => if goint.in_int64 n then n else unrepresentable x
  | None => unrepresentable x
  end.

(** amd64: the conversion instruction yields the "integer indefinite"
    value, the least int64, for every unrepresentable operand. *)
Definition amd64_unrepresentable (_ : t) : Z := goint.minInt64.

End float64.

(** ** net: host:port splitting *)

Module net.

Import strings.

(** [net.SplitHostPort]: [None] stands for a non-nil error. *)
Definition SplitHostPort (hostport : string) : option (string * string) :=
  match LastIndexByte hostport ":" with
  | None => None                                   (* missing port *)
  | Some i =>
      let port := drop (S i) hostport in
      match hostport with
      | String "[" _ =>
          match IndexByte hostport "]" with
          | None => None                           (* missing ']' *)
          | Some e =>
              if Nat.eqb (S e) i then
                if found (IndexByte (drop 1 hostport) "[") then None
                else if found (IndexByte (drop (S e) hostport) "]") then None
                else Some (String.substring 1 (e - 1) hostport, port)
              else None                            (* missing port / too many colons *)
          end
      | _ =>
          let host := take i hostport in
          if found (IndexByte host ":") then None (* too many colons *)
          else if found (IndexByte hostport "[") then None
          else if found (IndexByte hostport "]") then None
          else Some (host, port)
      end
  end.

End net.

(** ** net/http: requests, responses and the filter chain *)

Module http.

(** Header maps are keyed by canonical MIME header names; a key maps to
    the list of its values. *)
Definition Header : Type := gmap string (list string).

(** [Header.Get]: the first value of the key, or the empty string. *)
Definition Get (h : Header) (key : string) : string :=
  match h !! key with
  | Some (v :: _) => v
  | _ => ""
  end.

(** [Header.Del] *)
Definition Del (h : Header) (key : string) : Header := delete key h.

Record Request := {
  Method : string;
  Host : string;        (* the request target: host or host:port *)
  Path : string;
  ReqHeader : Header;
  Body : option string; (* nil or a readable body *)
}.

Definition withHeader (req : Request) (h : Header) : Request :=
  {| Method := Method req; Host := Host req; Path := Path req;
     ReqHeader := h; Body := Body req |}.

(** [req.Header.Del(key)] on the request object. *)
Definition DelHeader (req : Request) (key : string) : Request :=
  withHeader req (Del (ReqHeader req) key).

Record Response := {
  StatusCode : Z;
  ProtoMajor : Z;
  ProtoMinor : Z;
  RespHeader : Header;
  Close : bool;
}.

Definition StatusOK : Z := 200.
Definition StatusFound : Z := 302.
Definition StatusBadRequest : Z := 400.
Definition StatusForbidden : Z := 403.

Definition MethodGet : string := "GET".
Definition MethodConnect : string := "CONNECT".

End http.

Module filters.

Import http.

(** What a call in the chain does: it returns the triple of Go results
    (the context is passed through unchanged and left out), or it
    panics. *)
Inductive Result :=
| Returned (resp : option Response) (err : option string)
| Panicked (why : string).

(** [filters.Next]: the rest of the chain, run on the request as it is at
    the moment of the call.  The chain shares the request object with
    the filter; what the rest of the chain does to that object is not
    followed here. *)
Definition Next : Type := Request -> Result.

(** The observable effects of a filter, in program order (trace-level
    logging is left out). *)
Inductive Event :=
| EvNext (req : Request)            (* next(ctx, req) was called *)
| EvLogError (msg : string)         (* log.Error / log.Errorf *)
| EvLogDebug (msg : string)         (* log.Debugf *)
| EvMimic (mimicking : bool)        (* instrument.Mimic *)
| EvWrite (resp : Response)         (* resp.Write(conn) succeeded *)
| EvDrain                           (* io.Copy(ioutil.Discard, req.Body); req.Body.Close() *)
| EvApache (req : Request)          (* mimic.Apache(conn, req) *)
| EvConnClose.                      (* conn.Close() *)

(** The downstream connection as a filter meets it: whether a write on it
    fails, and what [http.ReadRequest] finds on it.  [ReadRequest] hands
    back a nil request with every error. *)
Record Conn := {
  writeErr : option string;
  tunneled : Request + string;
}.

Definition ReadRequest (conn : Conn) : option Request * option string :=
  match tunneled conn with
  | inl req => (Some req, None)
  | inr err => (None, Some err)
  end.

(** The outcome of [Apply]: its result, the request with the changes
    that [Apply] itself makes to it, and the effects. *)
Record Outcome := {
  result : Result;
  requestAfter : Request;
  trace : list Event;
}.

End filters.

(** The header names of package [common]. *)
Module common.

(** Modelled from the spec: the constants of package [common] are not
    among the sources; the version header is the one the package comment
    of [versioncheck] names, the token header is the "auth-token
    header".  Both names are in canonical form, so that [Header.Get],
    [Header.Del] and a direct map access agree on the key. *)
Definition VersionHeader : string := "X-Lantern-Version".
Definition TokenHeader : string := "X-Lantern-Auth-Token".

End common.

(** ** tunnelportsfilter *)

Module tunnelportsfilter.

Import strings http.

(** Modelled from the spec: the filter itself ([New], [AllowedPorts] and
    the handler) is not among the sources, only its test is.  The
    decision type is the one of the spec's data model (the headers of a
    reply, on which the spec is silent for this filter, are left out). *)
Inductive FilterDecision :=
| Continue (req : Request)
| Reply (status : Z) (close : bool)
| Hijack.

(** Modelled from the spec: the target "cannot be split" when it has no
    colon; the port segment is what follows the last colon. *)
Definition splitTarget (target : string) : option (string * string) :=
  match LastIndexByte target ":" with
  | None => None
  | Some i => Some (take i target, drop (S i) target)
  end.

(** Modelled from the spec: a port segment is "a valid integer" when it
    is a non-empty run of decimal digits, possibly after a sign. *)
Definition parsePort (s : string) : option Z :=
  match s with
  | String "+" r => strconv.number r
  | String "-" r => Z.opp <$> strconv.number r
  | _ => strconv.number s
  end.

(** Modelled from the spec: section 4.1, one decision per request. *)
Definition Apply (allowed : gset Z) (req : Request) : FilterDecision :=
  if String.eqb (Method req) MethodConnect then
    match splitTarget (Host req) with
    | None => Reply StatusBadRequest true
    | Some (_, portString) =>
        match parsePort portString with
        | None => Reply StatusBadRequest true
        | Some port =>
            if decide (port ∈ allowed) then Continue req
            else Reply StatusForbidden true
        end
    end
  else Continue req.

End tunnelportsfilter.

(** ** tokenfilter *)

Module tokenfilter.

Import http filters.

Record tokenFilter := { token : string }.

Definition New (token : string) : tokenFilter := {| token := token |}.

(** [strings.Join(tokens, ",")] *)
Fixpoint join (l : list string) : string :=
  match l with
  | [] => ""
  | [x] => x
  | x :: r => x ++ "," ++ join r
  end.

(** The loop over the candidates, with its [break]. *)
Fixpoint tokenMatched (token : string) (tokens : list string) : bool :=
  match tokens with
  | [] => false
  | candidate :: rest =>
      if String.eqb candidate token then true else tokenMatched token rest
  end.

(** [mimicApache]: the canned answer is written on the raw connection,
    which is then closed; nothing is handed back to the chain. *)
Definition mimicApache (req : Request) (before : list Event) : Outcome :=
  {| result := Returned None None;
     requestAfter := req;
     trace := before ++ [EvApache req; EvConnClose] |}.

Definition Apply (f : tokenFilter) (req : Request) (next : Next) : Outcome :=
  if String.eqb (token f) "" then
    {| result := next req; requestAfter := req; trace := [EvNext req] |}
  else
    match ReqHeader req !! common.TokenHeader with
    | None | Some [] =>
        mimicApache req
          [EvLogError "No token provided, mimicking apache"; EvMimic true]
    | Some ((first :: _) as tokens) =>
        if String.eqb first "" then
          mimicApache req
            [EvLogError "No token provided, mimicking apache"; EvMimic true]
        else if tokenMatched (token f) tokens then
          let req' := DelHeader req common.TokenHeader in
          {| result := next req'; requestAfter := req';
             trace := [EvMimic false; EvNext req'] |}
        else
          mimicApache req
            [EvLogError ("Mismatched token(s) " ++ join tokens ++ ", mimicking apache");
             EvMimic true]
    end.

End tokenfilter.

(** ** versioncheck *)

Module url.

(** The parts of a parsed [*url.URL] that the checker reads. *)
Record URL := {
  Scheme : string;
  Host : string;
  String : string;   (* what [u.String()] renders *)
}.

End url.

Module versioncheck.

Import strings http filters.

(** The libraries the checker calls and that are no part of the
    repository: semantic versions ([semver.Make], [semver.ParseRange],
    a range being a predicate on versions), URL parsing ([url.Parse]),
    and the compiler's choice for [int(x)] when [x] is not an [int]
    value.  A failing call hands back its error message. *)
Class Lib := {
  Version : Type;
  semver_Make : string -> Version + string;
  semver_ParseRange : string -> (Version -> bool) + string;
  url_Parse : string -> url.URL + string;
  int_unrepresentable : float64.t -> Z;
}.

Section Checker.

Context `{Lib}.

Definition oneMillion : Z := 100 * 100 * 100.

Record VersionChecker := {
  versionRange : Version -> bool;
  rewriteURL : url.URL;
  rewriteURLString : string;
  rewriteAddr : string;
  tunnelPorts : list string;
  ppm : Z;
}.

(** [New]: the URL is parsed first, then the range; [percentage] is
    multiplied by one million as a float64 and converted to [int]. *)
Definition New (versionRange rewriteURL : string)
    (tunnelPortsToCheck : list string) (percentage : float64.t)
    : VersionChecker + string :=
  match url_Parse rewriteURL with
  | inr err => inr err
  | inl u =>
      let rewriteAddr :=
        if String.eqb (url.Scheme u) "https" then url.Host u ++ ":443"
        else url.Host u in
      let tunnelPortsToCheck :=
        match tunnelPortsToCheck with
        | [] => ["80"]
        | _ => tunnelPortsToCheck
        end in
      match semver_ParseRange versionRange with
      | inr err => inr err
      | inl ver =>
          inl {| versionRange := ver;
                 rewriteURL := u;
                 rewriteURLString := rewriteURL;
                 rewriteAddr := rewriteAddr;
                 tunnelPorts := tunnelPortsToCheck;
                 ppm := float64.to_int int_unrepresentable
                          (float64.mul percentage (float64.of_Z oneMillion)) |}
      end
  end.

(** [matchVersion]; [draw] is what [random.Intn(oneMillion)] yields
    when the call is reached. *)
Definition matchVersion (c : VersionChecker) (req : Request) (draw : Z) : bool :=
  if String.eqb (Host req) (url.Host (rewriteURL c)) then false
  else
    let version := Get (ReqHeader req) common.VersionHeader in
    let parsed_and_out_of_range :=
      match semver_Make version with
      | inl v => negb (versionRange c v)     (* e == nil && !c.versionRange(v) *)
      | inr _ => false
      end in
    if parsed_and_out_of_range then false
    else if ppm c <=? draw then false         (* random.Intn(oneMillion) >= c.ppm *)
    else true.

(** The two conditions of [matchVersion] that precede the draw, named
    for the statements below: the request goes to the host of the
    rewrite URL; the version header does not parse, or parses to a
    version inside the configured range. *)
Definition toRewriteHost (c : VersionChecker) (req : Request) : bool :=
  String.eqb (Host req) (url.Host (rewriteURL c)).

Definition redirectCandidate (c : VersionChecker) (req : Request) : bool :=
  match semver_Make (Get (ReqHeader req) common.VersionHeader) with
  | inl v => versionRange c v
  | inr _ => true
  end.

Definition shouldRedirect (c : VersionChecker) (req : Request) (draw : Z) : bool :=
  if negb (HasPrefix (Get (ReqHeader req) "Accept") "text/html") then false
  else if negb (HasPrefix (Get (ReqHeader req) "User-Agent") "Mozilla/") then false
  else matchVersion c req draw.

(** The loop over [c.tunnelPorts], with its [break]. *)
Fixpoint portMeet (port : string) (ports : list string) : bool :=
  match ports with
  | [] => false
  | p :: rest => if String.eqb port p then true else portMeet port rest
  end.

Definition shouldRedirectOnConnect (c : VersionChecker) (req : Request) (draw : Z) : bool :=
  if negb (matchVersion c req draw) then false
  else
    match net.SplitHostPort (Host req) with
    | None => false
    | Some (_, port) => portMeet port (tunnelPorts c)
    end.

Definition found302 (c : VersionChecker) : Response :=
  {| StatusCode := StatusFound;
     ProtoMajor := 1;
     ProtoMinor := 1;
     RespHeader := {[ "Location" := [rewriteURLString c] ]};
     Close := true |}.

(** [redirect]: [req] is a pointer; the arguments of the debug message
    read [req.Method], [req.Host] and [req.URL.Path], which panics on a
    nil request. *)
Definition redirect (c : VersionChecker) (req : option Request)
    : Result * list Event :=
  match req with
  | None => (Panicked "invalid memory address or nil pointer dereference", [])
  | Some r =>
      (Returned (Some (found302 c)) None,
       [EvLogDebug ("Redirecting " ++ Method r ++ " " ++ Host r ++ Path r
                    ++ " to " ++ url.String (rewriteURL c))])
  end.

Definition ok200 : Response :=
  {| StatusCode := StatusOK;
     ProtoMajor := 1;
     ProtoMinor := 1;
     RespHeader := ∅;
     Close := false |}.

(** [redirectOnConnect]: the parameter [req] is overwritten by the
    result of [http.ReadRequest]; [req.Body] is then read through that
    pointer. *)
Definition redirectOnConnect (c : VersionChecker) (conn : Conn) (req : Request)
    : Result * list Event :=
  match writeErr conn with
  | Some err => (Returned None (Some err), [])
  | None =>
      let '(req, err) := ReadRequest conn in
      let logged :=
        match err with
        | Some e =>
            [EvLogError ("Fail to read tunneled request before redirecting: " ++ e)]
        | None => []
        end in
      match req with
      | None =>
          (Panicked "invalid memory address or nil pointer dereference",
           EvWrite ok200 :: logged)
      | Some r =>
          let drained := match Body r with Some _ => [EvDrain] | None => [] end in
          let '(res, evs) := redirect c (Some r) in
          (res, EvWrite ok200 :: logged ++ drained ++ evs)
      end
  end.

(** [Apply].  The deletion of the version header is deferred: it runs
    when [Apply] is left, after the operands of the [return] statement
    have been evaluated, hence after [next] has run, and also when the
    body panics. *)
Definition Apply (c : VersionChecker) (conn : Conn) (req : Request)
    (draw : Z) (next : Next) : Outcome :=
  let continue := (next req, [EvNext req]) in
  let '(res, evs) :=
    if String.eqb (Method req) MethodConnect then
      if shouldRedirectOnConnect c req draw then redirectOnConnect c conn req
      else continue
    else if String.eqb (Method req) MethodGet then
      if shouldRedirect c req draw then redirect c (Some req)
      else continue
    else continue in
  {| result := res;
     requestAfter := DelHeader req common.VersionHeader;
     trace := evs |}.

End Checker.

End versioncheck.

(** ** A concrete setting for worked examples *)

Module example.

Import strings.

(** Stand-ins for the libraries of [versioncheck.Lib], enough to run the
    checker on plain inputs: versions of the form MAJOR.MINOR.PATCH
    compared numerically, ranges made of one comparator, URLs of the
    form scheme://host/path, and the conversion of amd64. *)

Fixpoint splitOn (sep : ascii) (s : string) : list string :=
  match s with
  | EmptyString => [""]
  | String c r =>
      if Ascii.eqb c sep then "" :: splitOn sep r
      else match splitOn sep r with
           | [] => [String c ""]
           | x :: xs => String c x :: xs
           end
  end.

Definition Version : Type := Z * Z * Z.

Definition numeric (s : string) : option Z :=
  match s with
  | String "0" (String _ _) => None      (* leading zero *)
  | _ => strconv.number s
  end.

Definition Make (s : string) : Version + string :=
  match splitOn "." s with
  | [a; b; c] =>
      match numeric a, numeric b, numeric c with
      | Some x, Some y, Some z => inl (x, y, z)
      | _, _, _ => inr "Invalid character(s) found in version"
      end
  | _ => inr "No Major.Minor.Patch elements found"
  end.

Definition compare (v w : Version) : comparison :=
  let '(a, b, c) := v in
  let '(x, y, z) := w in
  match a ?= x with
  | Eq => match b ?= y with Eq => c ?= z | o => o end
  | o => o
  end.

Definition comparator (accept : comparison -> bool) (s : string)
    : (Version -> bool) + string :=
  match Make s with
  | inl w => inl (fun v => accept (compare v w))
  | inr e => inr e
  end.

Definition ParseRange (s : string) : (Version -> bool) + string :=
  match s with
  | String "<" (String "=" r) =>
      comparator (fun o => match o with Gt => false | _ => true end) r
  | String ">" (String "=" r) =>
      comparator (fun o => match o with Lt => false | _ => true end) r
  | String "<" r => comparator (fun o => match o with Lt => true | _ => false end) r
  | String ">" r => comparator (fun o => match o with Gt => true | _ => false end) r
  | String "=" r => comparator (fun o => match o with Eq => true | _ => false end) r
  | _ => comparator (fun o => match o with Eq => true | _ => false end) s
  end.

Definition Parse (s : string) : url.URL + string :=
  match String.index 0 "://" s with
  | None => inr "missing protocol scheme"
  | Some i =>
      let rest := drop (i + 3) s in
      let host :=
        match IndexByte rest "/" with
        | Some j => take j rest
        | None => rest
        end in
      inl {| url.Scheme := take i s; url.Host := host; url.String := s |}
  end.

(** A request with the given method, target and headers. *)
Definition request (method target : string)
    (headers : list (string * list string)) : http.Request :=
  {| http.Method := method; http.Host := target; http.Path := "/";
     http.ReqHeader := list_to_map headers; http.Body := None |}.

(** A rest of the chain that answers 200 and closes nothing. *)
Definition upstream : filters.Next :=
  fun _ =>
    filters.Returned
      (Some {| http.StatusCode := http.StatusOK; http.ProtoMajor := 1;
               http.ProtoMinor := 1; http.RespHeader := ∅;
               http.Close := false |}) None.

(** A connection on which writes succeed and the client hangs up before
    sending a request through the tunnel. *)
Definition hangup : filters.Conn :=
  {| filters.writeErr := None; filters.tunneled := inr "EOF" |}.

(** A connection on which the client sends a GET through the tunnel. *)
Definition tunnel : filters.Conn :=
  {| filters.writeErr := None;
     filters.tunneled := inl (request "GET" "example.org" []) |}.

#[export] Instance lib : versioncheck.Lib := {|
  versioncheck.Version := Version;
  versioncheck.semver_Make := Make;
  versioncheck.semver_ParseRange := ParseRange;
  versioncheck.url_Parse := Parse;
  versioncheck.int_unrepresentable := float64.amd64_unrepresentable;
|}.

(** The checker that [New] builds for clients below 3.0.0, the notice at
    upgrade.example.com and the default tunnel ports. *)
Definition checker (percentage : float64.t) : versioncheck.VersionChecker :=
  {| versioncheck.versionRange :=
       fun v => match compare v (3, 0, 0) with Lt => true | _ => false end;
     versioncheck.rewriteURL :=
       {| url.Scheme := "http"; url.Host := "upgrade.example.com";
          url.String := "http://upgrade.example.com/notice" |};
     versioncheck.rewriteURLString := "http://upgrade.example.com/notice";
     versioncheck.rewriteAddr := "upgrade.example.com";
     versioncheck.tunnelPorts := ["80"];
     versioncheck.ppm :=
       float64.to_int float64.amd64_unrepresentable
         (float64.mul percentage (float64.of_Z versioncheck.oneMillion)) |}.

(** The headers of a browser that announces a client version. *)
Definition browser (version : string) : list (string * list string) :=
  [(common.VersionHeader, [version]);
   ("Accept", ["text/html,application/xhtml+xml"]);
   ("User-Agent", ["Mozilla/5.0"])].

End example.

(** ** time: instants and the civil calendar *)

Module time.

(** A [*time.Location]: the UTC offset (seconds east of UTC) in effect
    before the first transition, and the transitions, each with the Unix
    time from which it holds and its offset, in the order of time.  A
    location with daylight saving time has a transition at every change
    of the clocks. *)
Record Location := {
  zone0 : Z;
  tx : list (Z * Z);
}.

(** The bounds that [lookup] gives to the first and to the last zone. *)
Definition alpha : Z := - 2 ^ 63.
Definition omega : Z := 2 ^ 63 - 1.

Fixpoint lookupFrom (offset start : Z) (tx : list (Z * Z)) (sec : Z) : Z * Z * Z :=
  match tx with
  | [] => (offset, start, omega)
  | (when, offset') :: rest =>
      if sec <? when then (offset, start, when)
      else lookupFrom offset' when rest sec
  end.

(** [Location.lookup]: the zone in effect at the Unix time [sec]: its
    offset, and the Unix times at which it starts and ends. *)
Definition lookup (l : Location) (sec : Z) : Z * Z * Z :=
  lookupFrom (zone0 l) alpha (tx l) sec.

Definition UTC : Location := {| zone0 := 0; tx := [] |}.

(** [time.FixedZone] *)
Definition FixedZone (offset : Z) : Location := {| zone0 := offset; tx := [] |}.

(** An instant is a count of nanoseconds since the Unix epoch, with the
    location in which it is read.  The calendar is the proleptic
    Gregorian one of package [time], computed with its cycles of 400,
    100, 4 and 1 years; in [Z], with floored division, the count of days
    starts on 1 January of year 1 and extends to every year. *)
Record Time := {
  unixNano : Z;
  loc : Location;
}.

Definition Nanosecond : Z := 1.
Definition Second : Z := 1000000000.

Definition January : Z := 1.
Definition February : Z := 2.
Definition March : Z := 3.
Definition December : Z := 12.

Definition secondsPerDay : Z := 86400.
Definition daysPer400Years : Z := 365 * 400 + 97.
Definition daysPer100Years : Z := 365 * 100 + 24.
Definition daysPer4Years : Z := 365 * 4 + 1.

(** Seconds from 1 January of year 1 to the Unix epoch. *)
Definition unixToAbsolute : Z := 719162 * secondsPerDay.

Definition isLeap (year : Z) : bool :=
  (year mod 4 =? 0) && (negb (year mod 100 =? 0) || (year mod 400 =? 0)).

(** [daysBefore[m]]: the days of a non-leap year before month [m + 1]. *)
Definition daysBefore (m : Z) : Z :=
  nth (Z.to_nat m) [0; 31; 59; 90; 120; 151; 181; 212; 243; 273; 304; 334; 365] 0.

(** Days from 1 January of year 1 to 1 January of [year]. *)
Definition daysSinceEpoch (year : Z) : Z :=
  let y := year - 1 in
  let n := y / 400 in
  let y := y - 400 * n in
  let d := daysPer400Years * n in
  let n := y / 100 in
  let y := y - 100 * n in
  let d := d + daysPer100Years * n in
  let n := y / 4 in
  let y := y - 4 * n in
  let d := d + daysPer4Years * n in
  d + 365 * y.

(** [t.Unix()]: the whole seconds since the Unix epoch. *)
Definition Unix (t : Time) : Z := unixNano t / Second.

(** The UTC offset that the location of [t] has at [t]. *)
Definition zoneOffset (t : Time) : Z := (lookup (loc t) (Unix t)).1.1.

(** [time.Date], the search for the zone of a clock reading [unix]
    (seconds since the Unix epoch as the clock of the location shows
    them): the reading is first taken for a Unix time; the offset found
    there is right when the instant it leads to lies in the same zone,
    and otherwise the offset at that instant is taken. *)
Definition dateOffset (l : Location) (unix : Z) : Z :=
  let '(offset, start, end_) := lookup l unix in
  if offset =? 0 then 0
  else
    let utc := unix - offset in
    if (utc <? start) || (end_ <=? utc) then (lookup l utc).1.1
    else offset.

(** [time.Date]: the month overflows into the year, the nanoseconds into
    the seconds; the time of day and the day overflow into the days by
    plain addition; the clock reading is then moved to UTC by the offset
    of its zone. *)
Definition Date (year month day hour min sec nsec : Z) (loc : Location) : Time :=
  let sec := sec + nsec / Second in
  let nsec := nsec mod Second in
  let m := month - 1 in
  let year := year + m / 12 in
  let m := m mod 12 in
  let month := m + 1 in
  let d := daysSinceEpoch year + daysBefore (month - 1) in
  let d := if isLeap year && (March <=? month) then d + 1 else d in
  let d := d + (day - 1) in
  let abs := d * secondsPerDay + hour * 3600 + min * 60 + sec in
  let unix := abs - unixToAbsolute in
  {| unixNano := (unix - dateOffset loc unix) * Second + nsec;
     loc := loc |}.

(** [t.abs()]: seconds since 1 January of year 1, on the clock of the
    location. *)
Definition abs (t : Time) : Z :=
  Unix t + zoneOffset t + unixToAbsolute.

(** [absDate]: the civil date (year, month, day) of a count of seconds. *)
Definition absDate (abs : Z) : Z * Z * Z :=
  let d := abs / secondsPerDay in
  let n := d / daysPer400Years in
  let y := 400 * n in
  let d := d - daysPer400Years * n in
  let n := d / daysPer100Years in
  let n := n - n / 4 in
  let y := y + 100 * n in
  let d := d - daysPer100Years * n in
  let n := d / daysPer4Years in
  let y := y + 4 * n in
  let d := d - daysPer4Years * n in
  let n := d / 365 in
  let n := n - n / 4 in
  let y := y + n in
  let d := d - 365 * n in
  let year := y + 1 in
  let yday := d in
  if isLeap year && (yday =? 31 + 29 - 1) then (year, February, 29)
  else
    let day := if isLeap year && (31 + 29 - 1 <? yday) then yday - 1 else yday in
    let month := day / 31 in
    let stop := daysBefore (month + 1) in
    let '(month, begin) :=
      if stop <=? day then (month + 1, stop) else (month, daysBefore month) in
    (year, month + 1, day - begin + 1).

Definition Year (t : Time) : Z := (absDate (abs t)).1.1.
Definition Month (t : Time) : Z := (absDate (abs t)).1.2.
Definition Day (t : Time) : Z := (absDate (abs t)).2.

(** [t.Clock()]: hour, minute and second of the day. *)
Definition Clock (t : Time) : Z * Z * Z :=
  let sec := abs t mod secondsPerDay in
  (sec / 3600, sec mod 3600 / 60, sec mod 60).

(** [t.Nanosecond()]: the nanoseconds within the second. *)
Definition nsec (t : Time) : Z := unixNano t mod Second.

(** [t.Add(d)] *)
Definition Add (t : Time) (d : Z) : Time :=
  {| unixNano := unixNano t + d; loc := loc t |}.

End time.

(** The civil calendar in terms of which the reporter's expiry is stated. *)
Module calendar.

Import time.

Definition yearLength (year : Z) : Z := if isLeap year then 366 else 365.

(** The first half of [absDate]: the year of a count of days, and the day
    within that year. *)
Definition yearAndDay (d : Z) : Z * Z :=
  let n := d / daysPer400Years in
  let y := 400 * n in
  let d := d - daysPer400Years * n in
  let n := d / daysPer100Years in
  let n := n - n / 4 in
  let y := y + 100 * n in
  let d := d - daysPer100Years * n in
  let n := d / daysPer4Years in
  let y := y + 4 * n in
  let d := d - daysPer4Years * n in
  let n := d / 365 in
  let n := n - n / 4 in
  let y := y + n in
  let d := d - 365 * n in
  (y + 1, d).

(** The second half of [absDate]: month and day of a day of the year. *)
Definition monthAndDay (leap : bool) (yday : Z) : Z * Z :=
  if leap && (yday =? 31 + 29 - 1) then (February, 29)
  else
    let day := if leap && (31 + 29 - 1 <? yday) then yday - 1 else yday in
    let month := day / 31 in
    let stop := daysBefore (month + 1) in
    let '(month, begin) :=
      if stop <=? day then (month + 1, stop) else (month, daysBefore month) in
    (month + 1, day - begin + 1).

Definition daysIn (leap : bool) (month : Z) : Z :=
  if month =? 2 then (if leap then 29 else 28)
  else if (month =? 4) || (month =? 6) || (month =? 9) || (month =? 11) then 30
  else 31.

Definition dayOfYear (leap : bool) (month day : Z) : Z :=
  daysBefore (month - 1) + (if leap && (March <=? month) then 1 else 0) + (day - 1).

(** The count of days of a civil date, from 1 January of year 1. *)
Definition dayNumber (year month day : Z) : Z :=
  daysSinceEpoch year + dayOfYear (isLeap year) month day.

Definition validDate (year month day : Z) : Prop :=
  1 <= month <= 12 /\ 1 <= day <= daysIn (isLeap year) month.

(** The instants at which the clock of their location shows a day of the
    month. *)
Definition inMonth (year month : Z) (t : Time) : Prop :=
  Year t = year /\ Month t = month.

(** Among the instants that a location reads with one offset, [e] is the
    last of the month, [b] the first. *)
Definition finalInstantOfMonth (year month : Z) (e : Time) : Prop :=
  inMonth year month e /\
  forall t,
    loc t = loc e -> zoneOffset t = zoneOffset e -> inMonth year month t ->
    unixNano t <= unixNano e.

Definition firstInstantOfMonth (year month : Z) (b : Time) : Prop :=
  inMonth year month b /\
  forall t,
    loc t = loc b -> zoneOffset t = zoneOffset b -> inMonth year month t ->
    unixNano b <= unixNano t.

(** The clock shows the last nanosecond of the month: its last day, at
    23:59:59.999999999. *)
Definition lastNanosecondOfMonth (year month : Z) (e : Time) : Prop :=
  Year e = year /\ Month e = month /\ Day e = daysIn (isLeap year) month
  /\ Clock e = (23, 59, 59) /\ nsec e = 999999999.

(** The clock shows the first nanosecond of the month: its first day, at
    00:00:00.000000000. *)
Definition firstNanosecondOfMonth (year month : Z) (b : Time) : Prop :=
  Year b = year /\ Month b = month /\ Day b = 1
  /\ Clock b = (0, 0, 0) /\ nsec b = 0.

(** The month after December is January of the following year. *)
Definition followingMonth (year month : Z) : Z * Z :=
  if month =? December then (year + 1, January) else (year, month + 1).

(** The clock reading (seconds since the Unix epoch, as the clock shows
    them) of the midnight that begins the month after the one of [now]. *)
Definition nextMonthMidnight (now : Time) : Z :=
  let '(y', m') := followingMonth (Year now) (Month now) in
  dayNumber y' m' 1 * secondsPerDay - unixToAbsolute.

(** A clock reading that the location meets away from a change of its
    clocks: the offset that the location has at the Unix time [unix] is
    also its offset at the instant that shows the reading [unix] with
    this offset, and one second before that instant. *)
Definition settled (l : Location) (unix : Z) : Prop :=
  let offset := (lookup l unix).1.1 in
  (lookup l (unix - offset)).1.1 = offset
  /\ (lookup l (unix - offset - 1)).1.1 = offset.

(** Exhaustive checks over the days of a year, used by the proofs. *)
Definition monthAndDay_ok (leap : bool) (yd : Z) : bool :=
  let '(m, d) := monthAndDay leap yd in
  (1 <=? m) && (m <=? 12) && (1 <=? d) && (d <=? daysIn leap m)
  && (dayOfYear leap m d =? yd).

Definition dayOfYear_ok (leap : bool) (k : Z) : bool :=
  let m := k / 32 + 1 in
  let d := k mod 32 in
  if (1 <=? d) && (d <=? daysIn leap m) then
    let yd := dayOfYear leap m d in
    (0 <=? yd) && (yd <? (if leap then 366 else 365))
    && (let '(m', d') := monthAndDay leap yd in (m' =? m) && (d' =? d))
  else true.

End calendar.

(** ** redis: the usage reporter *)

Module measured.

(** [measured.Stats]: the two totals the reporter reads (uint64). *)
Record Stats := {
  SentTotal : Z;
  RecvTotal : Z;
}.

End measured.

Module redis.

Import measured.

(** The hash kept under a client key, with the expiry of the key in
    seconds since the Unix epoch, as [EXPIREAT] takes it. *)
Record ClientHash := {
  bytesIn : Z;
  bytesOut : Z;
  expireAt : option Z;
}.

(** The commands of the transaction of [submit] that take effect. *)
Record Applied := {
  incrBytesIn : bool;
  incrBytesOut : bool;
  expire : bool;
}.

Definition everything : Applied :=
  {| incrBytesIn := true; incrBytesOut := true; expire := true |}.

(** The store behind [*redis.Client]: the hashes, the keys for which a
    transaction currently fails, and what such a transaction leaves
    behind.  Redis runs every queued command of an [EXEC] and undoes
    none of them, so that the commands beside a failing one take
    effect; a transaction that is lost on the way takes no effect, one
    whose reply is lost takes all of it. *)
Record Client := {
  hashes : gmap string ClientHash;
  failing : string -> bool;
  applied : string -> Applied;
}.

Definition emptyHash : ClientHash :=
  {| bytesIn := 0; bytesOut := 0; expireAt := None |}.

(** [HINCRBY key bytesIn n]: a missing hash or field counts as 0. *)
Definition HIncrByIn (h : option ClientHash) (n : Z) : option ClientHash :=
  let h := default emptyHash h in
  Some {| bytesIn := bytesIn h + n; bytesOut := bytesOut h; expireAt := expireAt h |}.

(** [HINCRBY key bytesOut n] *)
Definition HIncrByOut (h : option ClientHash) (n : Z) : option ClientHash :=
  let h := default emptyHash h in
  Some {| bytesIn := bytesIn h; bytesOut := bytesOut h + n; expireAt := expireAt h |}.

(** [ExpireAt(key, tm)] sends [EXPIREAT key tm.Unix()]; a missing key is
    left missing. *)
Definition ExpireAt (h : option ClientHash) (tm : time.Time) : option ClientHash :=
  match h with
  | Some h =>
      Some {| bytesIn := bytesIn h; bytesOut := bytesOut h;
              expireAt := Some (time.Unix tm) |}
  | None => None
  end.

(** The three queued commands, those of [todo] taking effect, on the
    value of the key. *)
Definition run (todo : Applied) (h : option ClientHash) (recv sent : Z)
    (expiry : time.Time) : option ClientHash :=
  let h := if incrBytesIn todo then HIncrByIn h recv else h in
  let h := if incrBytesOut todo then HIncrByOut h sent else h in
  if expire todo then ExpireAt h expiry else h.

(** One MULTI/EXEC transaction of [submit]: both increments and the
    expiry, with the results of the two [HIncrBy]; or an error, and of
    the three commands those that took effect all the same. *)
Definition Exec (rc : Client) (clientKey : string) (recv sent : Z)
    (expiry : time.Time) : Client * ((Z * Z) + string) :=
  let todo := if failing rc clientKey then applied rc clientKey else everything in
  let h := run todo (hashes rc !! clientKey) recv sent expiry in
  let rc' := {| hashes := match h with
                          | Some h => <[clientKey := h]> (hashes rc)
                          | None => hashes rc
                          end;
                failing := failing rc;
                applied := applied rc |} in
  if failing rc clientKey then (rc', inr "redis: transaction failed")
  else
    let h := default emptyHash h in
    (rc', inl (bytesIn h, bytesOut h)).

(** What the reporter does that can be seen from outside. *)
Inductive Event :=
| Attempt (deviceID : string)                               (* multi.Exec for the device *)
| UsageSet (deviceID : string) (total : Z) (now : time.Time) (* usage.Set *)
| LogError (msg : string).

(** The devices for which a transaction was attempted, in order. *)
Fixpoint attempts (evs : list Event) : list string :=
  match evs with
  | [] => []
  | Attempt deviceID :: rest => deviceID :: attempts rest
  | _ :: rest => attempts rest
  end.

(** The devices whose totals were reported to [usage], in order. *)
Fixpoint flushed (evs : list Event) : list string :=
  match evs with
  | [] => []
  | UsageSet deviceID _ _ :: rest => deviceID :: flushed rest
  | _ :: rest => flushed rest
  end.

(** [submit], first part: the end of the month of [now]. *)
Definition endOfThisMonth (now : time.Time) : time.Time :=
  let nextMonth := time.Month now + 1 in
  let nextYear := time.Year now in
  let '(nextMonth, nextYear) :=
    if time.December <? nextMonth then (time.January, nextYear + 1)
    else (nextMonth, nextYear) in
  let beginningOfNextMonth :=
    time.Date nextYear nextMonth 1 0 0 0 0 (time.loc now) in
  time.Add beginningOfNextMonth (-1 * time.Nanosecond).

(** [clientKey := "_client:" + deviceID] *)
Definition clientKey (deviceID : string) : string := "_client:" ++ deviceID.

(** [submit], the loop: [entries] are the entries of the map in the
    order in which [range] yields them. *)
Fixpoint submitEach (rc : Client) (now endOfThisMonth : time.Time)
    (entries : list (string * Stats)) : Client * list Event * option string :=
  match entries with
  | [] => (rc, [], None)
  | (deviceID, stats) :: rest =>
      match Exec rc (clientKey deviceID)
              (goint.wrap_int64 (RecvTotal stats))
              (goint.wrap_int64 (SentTotal stats)) endOfThisMonth with
      | (rc', inr merr) => (rc', [Attempt deviceID], Some merr)
      | (rc', inl (bytesIn, bytesOut)) =>
          let total := goint.wrap_uint64 (goint.wrap_int64 (bytesIn + bytesOut)) in
          let '(rc'', evs, err) := submitEach rc' now endOfThisMonth rest in
          (rc'', Attempt deviceID :: UsageSet deviceID total now :: evs, err)
      end
  end.

Definition submit (rc : Client) (now : time.Time)
    (entries : list (string * Stats)) : Client * list Event * option string :=
  submitEach rc now (endOfThisMonth now) entries.

(** A value of the context map: a string, or something else. *)
Inductive Value :=
| StringValue (s : string)
| OtherValue.

Record statsAndContext := {
  ctx : gmap string Value;
  stats : Stats;
}.

(** The state of the loop of [reportPeriodically]. *)
Record State := {
  rc : Client;
  statsByDeviceID : gmap string Stats;
  seen : list Event;
}.

(** [case sac := <-statsCh]; [None] is the panic of the type assertion
    on a device id that is no string.  The map holds pointers: for a new
    device it keeps the [Stats] object of the sample itself and adds later
    samples into it; the totals are modelled by their values. *)
Definition onSample (st : State) (sac : statsAndContext) : option State :=
  match ctx sac !! "deviceid" with
  | None => Some st
  | Some OtherValue => None
  | Some (StringValue deviceID) =>
      let merged :=
        match statsByDeviceID st !! deviceID with
        | None => stats sac
        | Some existing =>
            {| SentTotal := goint.wrap_uint64 (SentTotal existing + SentTotal (stats sac));
               RecvTotal := goint.wrap_uint64 (RecvTotal existing + RecvTotal (stats sac)) |}
        end in
      Some {| rc := rc st;
              statsByDeviceID := <[deviceID := merged]> (statsByDeviceID st);
              seen := seen st |}
  end.

(** [case <-ticker.C]: one flush pass, then the reset of the map. *)
Definition onTick (st : State) (now : time.Time)
    (entries : list (string * Stats)) : State :=
  let '(rc', evs, err) := submit (rc st) now entries in
  let logged :=
    match err with
    | Some e => [LogError ("Unable to submit stats: " ++ e)]
    | None => []
    end in
  {| rc := rc'; statsByDeviceID := ∅; seen := seen st ++ evs ++ logged |}.

(** What the loop reacts to. *)
Inductive Signal :=
| Sample (sac : statsAndContext)
| Tick (now : time.Time) (entries : list (string * Stats)).

(** One turn of the loop.  On a tick, [range] yields the entries of the
    map in some order. *)
Inductive step : State -> Signal -> State -> Prop :=
| step_sample st sac st' :
    onSample st sac = Some st' ->
    step st (Sample sac) st'
| step_tick st now entries :
    entries ≡ₚ map_to_list (statsByDeviceID st) ->
    step st (Tick now entries) (onTick st now entries).

(** [reportPeriodically], after the initial sleep: the loop takes the
    signals one after the other. *)
Inductive reportPeriodically : State -> list Signal -> State -> Prop :=
| loop_idle st :
    reportPeriodically st [] st
| loop_turn st signal st1 signals st2 :
    step st signal st1 ->
    reportPeriodically st1 signals st2 ->
    reportPeriodically st (signal :: signals) st2.

End redis.

Module example_flush.

Import measured redis.

(** Three devices with pending totals, and a store that refuses the key
    of device "b". *)
Definition totals (sent recv : Z) : Stats :=
  {| SentTotal := sent; RecvTotal := recv |}.

Definition pending : gmap string Stats :=
  {[ "a" := totals 10 20; "b" := totals 1 2; "c" := totals 5 5 ]}.

(** A failing transaction of the store of the examples: the received
    total is refused, the sent total and the expiry take effect. *)
Definition partly : Applied :=
  {| incrBytesIn := false; incrBytesOut := true; expire := true |}.

Definition store (refused : string -> bool) : Client :=
  {| hashes := ∅; failing := refused; applied := fun _ => partly |}.

Definition state (refused : string -> bool) : State :=
  {| rc := store refused; statsByDeviceID := pending; seen := [] |}.

Definition refuse_b (k : string) : bool := String.eqb k "_client:b".
Definition refuse_none (_ : string) : bool := false.

(** Noon of 15 December 2016, UTC. *)
Definition noon : time.Time := time.Date 2016 12 15 12 0 0 0 time.UTC.

(** New York in 2016: five hours behind UTC, four from 13 March, 7:00
    UTC, to 6 November, 6:00 UTC. *)
Definition newYork : time.Location :=
  {| time.zone0 := -18000;
     time.tx := [(1457852400, -14400); (1478412000, -18000)] |}.

(** Noon of 1 March 2016 in New York. *)
Definition march : time.Time := time.Date 2016 3 1 12 0 0 0 newYork.

(** Asuncion in 2017: four hours behind UTC, three from 1 October, 4:00
    UTC: at midnight of 1 October the clocks are put to 1:00. *)
Definition asuncion : time.Location :=
  {| time.zone0 := -14400; time.tx := [(1506830400, -10800)] |}.

(** Noon of 15 September 2017 in Asuncion. *)
Definition september : time.Time := time.Date 2017 9 15 12 0 0 0 asuncion.

(** Berlin in October 2016: two hours ahead of UTC, one from 30 October,
    1:00 UTC. *)
Definition berlin : time.Location :=
  {| time.zone0 := 7200; time.tx := [(1477789200, 3600)] |}.

(** Midnight of 1 October 2016 in Berlin. *)
Definition october : time.Time := time.Date 2016 10 1 0 0 0 0 berlin.

End example_flush.

(** ** versioncheck: the dialer *)

Module dial.

Import versioncheck.

(** A [net.Conn]: the nil interface value, a connection dialed to an
    address, or the TLS client session that [tls.Client] lays over a
    connection for a server name. *)
Inductive Conn :=
| Nil
| Dialed (network address : string)
| TLSClient (inner : Conn) (ServerName : string).

(** [type Dial func(network, address string) (net.Conn, error)] *)
Definition Dial : Type := string -> string -> Conn * option string.

Section Dialer.

Context `{Lib}.

(** [Dialer] *)
Definition Dialer (c : VersionChecker) (d : Dial) : Dial :=
  if negb (String.eqb (url.Scheme (rewriteURL c)) "https") then d
  else
    fun network address =>
      let '(conn, err) := d network address in
      match err with
      | Some _ => (conn, err)
      | None =>
          if String.eqb (rewriteAddr c) address then
            (TLSClient conn (url.Host (rewriteURL c)), err)
          else (conn, err)
      end.

End Dialer.

End dial.

(** ** redis: the samples as the loop holds them *)

Module pointers.

Import measured redis.

(** The loop of [reportPeriodically] keeps the pointers that the samples
    bring: the first sample of a device puts its [*measured.Stats] into
    the map, and the later ones are added to the object behind it.  Here
    the objects are kept in a heap, so that a pointer that comes twice
    meets itself.  [redis.onSample] reads the same code by value: that
    is what the loop does to samples that bring objects of their own. *)

(** A [*measured.Stats] that is not nil: the address of a Stats object. *)
Definition Ptr : Type := positive.

(** The Stats objects, by address. *)
Definition Heap : Type := Ptr -> Stats.

Definition write (h : Heap) (p : Ptr) (v : Stats) : Heap :=
  fun q => if Pos.eqb q p then v else h q.

(** [statsAndContext], with [stats] as the pointer that it is; [None] is
    nil. *)
Record statsAndContext := {
  ctx : gmap string Value;
  stats : option Ptr;
}.

(** What the loop works on between two ticks: the objects, and the map
    from device ids to pointers. *)
Record Loop := {
  heap : Heap;
  statsByDeviceID : gmap string (option Ptr);
}.

(** [case sac := <-statsCh]: the first sample of a device puts the pointer
    of the sample into the map; a later one is added, field after field,
    to the object that the map points to.  [None] is a panic: a device id
    that is not a string, or a nil [sac.stats] that is read. *)
Definition onSample (st : Loop) (sac : statsAndContext) : option Loop :=
  match ctx sac !! "deviceid" with
  | None => Some st
  | Some OtherValue => None
  | Some (StringValue deviceID) =>
      let existing :=
        match statsByDeviceID st !! deviceID with
        | Some p => p
        | None => None
        end in
      match existing with
      | None =>
          Some {| heap := heap st;
                  statsByDeviceID := <[deviceID := stats sac]> (statsByDeviceID st) |}
      | Some existing =>
          match stats sac with
          | None => None
          | Some p =>
              let h1 :=
                write (heap st) existing
                  {| SentTotal := goint.wrap_uint64
                       (SentTotal (heap st existing) + SentTotal (heap st p));
                     RecvTotal := RecvTotal (heap st existing) |} in
              let h2 :=
                write h1 existing
                  {| SentTotal := SentTotal (h1 existing);
                     RecvTotal := goint.wrap_uint64
                       (RecvTotal (h1 existing) + RecvTotal (h1 p)) |} in
              Some {| heap := h2; statsByDeviceID := statsByDeviceID st |}
          end
      end
  end.

(** The samples taken one after the other by the loop; [None] when one of
    them makes it panic. *)
Fixpoint feed (st : Loop) (sacs : list statsAndContext) : option Loop :=
  match sacs with
  | [] => Some st
  | sac :: rest =>
      match onSample st sac with
      | Some st' => feed st' rest
      | None => None
      end
  end.

(** The objects of the samples, in order. *)
Fixpoint objects (sacs : list statsAndContext) : list Ptr :=
  match sacs with
  | [] => []
  | sac :: rest =>
      match stats sac with
      | Some p => p :: objects rest
      | None => objects rest
      end
  end.

(** The objects of the samples that carry the device id [deviceID]. *)
Fixpoint collected (deviceID : string) (sacs : list statsAndContext) : list Ptr :=
  match sacs with
  | [] => []
  | sac :: rest =>
      match ctx sac !! "deviceid", stats sac with
      | Some (StringValue d), Some p =>
          if String.eqb d deviceID then p :: collected deviceID rest
          else collected deviceID rest
      | _, _ => collected deviceID rest
      end
  end.

(** No sample carries a device id that is not a string. *)
Definition wellTyped (sac : statsAndContext) : Prop :=
  ctx sac !! "deviceid" <> Some OtherValue.

(** The sum of two totals, in uint64. *)
Definition add (a b : Stats) : Stats :=
  {| SentTotal := goint.wrap_uint64 (SentTotal a + SentTotal b);
     RecvTotal := goint.wrap_uint64 (RecvTotal a + RecvTotal b) |}.

(** The values of the type uint64. *)
Definition uint64 (n : Z) : Prop := 0 <= n < 2 ^ 64.

Definition sumSent (l : list Stats) : Z := fold_right (fun s acc => SentTotal s + acc) 0 l.
Definition sumRecv (l : list Stats) : Z := fold_right (fun s acc => RecvTotal s + acc) 0 l.

(** The loop before its first sample. *)
Definition start (h : Heap) : Loop := {| heap := h; statsByDeviceID := ∅ |}.

End pointers.

(** ** redis: the channel between the listeners and the reporter *)

Module channel.

Import redis pointers.

(** [make(chan *statsAndContext, 10000)]: the buffer of the channel, oldest
    element first. *)
Definition capacity : Z := 10000.

(** The function that [NewMeasuredReporter] returns: a send that does not
    block; with a full buffer the [default] case is taken and the sample is
    lost.  What is sent is [deltaStats]. *)
Definition NewMeasuredReporter (statsCh : list statsAndContext)
    (ctx : gmap string Value) (stats deltaStats : option Ptr) (final : bool)
    : list statsAndContext :=
  if Z.of_nat (length statsCh) <? capacity then
    (statsCh ++ [{| pointers.ctx := ctx; pointers.stats := deltaStats |}])%list
  else statsCh.

(** [<-statsCh]: the oldest element, when there is one. *)
Definition receive (statsCh : list statsAndContext)
    : option (statsAndContext * list statsAndContext) :=
  match statsCh with
  | [] => None
  | sac :: rest => Some (sac, rest)
  end.

(** What happens on the channel: a listener reports, or the reporter is
    ready to receive. *)
Inductive Action :=
| Report (ctx : gmap string Value) (stats deltaStats : option Ptr) (final : bool)
| Receive.

(** The channel with the record of what went through it. *)
Record Channel := {
  buffer : list statsAndContext;
  sent : list statsAndContext;      (* accepted by the channel, in order *)
  lost : list statsAndContext;      (* refused, in order *)
  received : list statsAndContext;  (* taken by the reporter, in order *)
}.

Definition act (ch : Channel) (a : Action) : Channel :=
  match a with
  | Report ctx stats deltaStats final =>
      let sac := {| pointers.ctx := ctx; pointers.stats := deltaStats |} in
      let accepted := Z.of_nat (length (buffer ch)) <? capacity in
      {| buffer := NewMeasuredReporter (buffer ch) ctx stats deltaStats final;
         sent := if accepted then (sent ch ++ [sac])%list else sent ch;
         lost := if accepted then lost ch else (lost ch ++ [sac])%list;
         received := received ch |}
  | Receive =>
      match receive (buffer ch) with
      | None => ch                        (* the reporter waits *)
      | Some (sac, rest) =>
          {| buffer := rest; sent := sent ch; lost := lost ch;
             received := (received ch ++ [sac])%list |}
      end
  end.

Definition run (ch : Channel) (actions : list Action) : Channel :=
  fold_left act actions ch.

Definition fresh : Channel :=
  {| buffer := []; sent := []; lost := []; received := [] |}.

(** The number of reports among the actions. *)
Fixpoint reports (actions : list Action) : nat :=
  match actions with
  | [] => 0%nat
  | Report _ _ _ _ :: rest => S (reports rest)
  | Receive :: rest => reports rest
  end.

(** What every action keeps: the bound of the buffer, the order of what
    went through, and the count of what was reported. *)
Definition kept (reported : nat) (ch : Channel) : Prop :=
  Z.of_nat (length (buffer ch)) <= capacity
  /\ (received ch ++ buffer ch)%list = sent ch
  /\ (length (sent ch) + length (lost ch))%nat = reported.

End channel.

(** ** redis: what a pass writes *)

Module flush.

Import measured redis.

(** The hash that a successful write leaves for a device: the counter of
    bytes in grows by the received total, the counter of bytes out by the
    sent total, both converted to int64; the expiry is the one handed
    over, in whole seconds. *)
Definition written (rc : Client) (deviceID : string) (s : Stats)
    (expiry : time.Time) : ClientHash :=
  let h := default emptyHash (hashes rc !! clientKey deviceID) in
  {| bytesIn := bytesIn h + goint.wrap_int64 (RecvTotal s);
     bytesOut := bytesOut h + goint.wrap_int64 (SentTotal s);
     expireAt := Some (time.Unix expiry) |}.

(** What a failing write leaves under the key of a device: of the three
    commands, those that took effect. *)
Definition leftBehind (rc : Client) (deviceID : string) (s : Stats)
    (expiry : time.Time) : option ClientHash :=
  run (applied rc (clientKey deviceID)) (hashes rc !! clientKey deviceID)
    (goint.wrap_int64 (RecvTotal s)) (goint.wrap_int64 (SentTotal s)) expiry.

(** The total that [usage.Set] is given after such a write. *)
Definition reported (h : ClientHash) : Z :=
  goint.wrap_uint64 (goint.wrap_int64 (bytesIn h + bytesOut h)).

End flush.

(** ** Further worked examples *)

Module example_more.

Import example.

(** The checker that [New] builds for the notice served over https. *)
Definition secure (percentage : float64.t) : versioncheck.VersionChecker :=
  {| versioncheck.versionRange :=
       fun v => match compare v (3, 0, 0) with Lt => true | _ => false end;
     versioncheck.rewriteURL :=
       {| url.Scheme := "https"; url.Host := "upgrade.example.com";
          url.String := "https://upgrade.example.com/notice" |};
     versioncheck.rewriteURLString := "https://upgrade.example.com/notice";
     versioncheck.rewriteAddr := "upgrade.example.com:443";
     versioncheck.tunnelPorts := ["80"];
     versioncheck.ppm :=
       float64.to_int float64.amd64_unrepresentable
         (float64.mul percentage (float64.of_Z versioncheck.oneMillion)) |}.

(** A dial that reaches every address but those of the host "down". *)
Definition reach : dial.Dial :=
  fun network address =>
    if String.prefix "down:" address then (dial.Nil, Some "connection refused")
    else (dial.Dialed network address, None).

(** A connection on which nothing can be written. *)
Definition broken : filters.Conn :=
  {| filters.writeErr := Some "broken pipe";
     filters.tunneled := inr "EOF" |}.

(** Three Stats objects: the first two hold totals, every other one is
    zero. *)
Definition objects : pointers.Heap :=
  fun p =>
    match p with
    | 1%positive => example_flush.totals (2 ^ 64 - 1) 10
    | 2%positive => example_flush.totals 2 20
    | _ => example_flush.totals 0 0
    end.

(** A sample of a device, with the object at [p]. *)
Definition sample (deviceID : string) (p : pointers.Ptr) : pointers.statsAndContext :=
  {| pointers.ctx := {[ "deviceid" := redis.StringValue deviceID ]};
     pointers.stats := Some p |}.

(** A sample whose device id is not a string. *)
Definition illTyped : pointers.statsAndContext :=
  {| pointers.ctx := {[ "deviceid" := redis.OtherValue ]};
     pointers.stats := Some 3%positive |}.

(** A report of a sample on the channel. *)
Definition report (deviceID : string) : channel.Action :=
  channel.Report {[ "deviceid" := redis.StringValue deviceID ]}
    (Some 1%positive) (Some 2%positive) false.

End example_more.

(** * Properties *)

(** ** tunnelportsfilter *)

Section PortAdmission.

Import http tunnelportsfilter.

(** C7 — for a CONNECT request the filter gives exactly one of three
    decisions, by cases on the target: 400 when the target has no colon
    or its port segment is empty or no integer; 403 when the port parses
    and is not allowed; Continue with the request unchanged when the
    port is allowed. *)
Theorem C7_port_admission_cases (allowed : gset Z) (req : Request) :
  Method req = MethodConnect ->
  (Apply allowed req = Reply StatusBadRequest true
   /\ (splitTarget (Host req) = None
       \/ exists host seg, splitTarget (Host req) = Some (host, seg)
                           /\ (seg = "" \/ parsePort seg = None)))
  \/ (Apply allowed req = Reply StatusForbidden true
      /\ exists host seg port, splitTarget (Host req) = Some (host, seg)
                               /\ parsePort seg = Some port /\ port ∉ allowed)
  \/ (Apply allowed req = Continue req
      /\ exists host seg port, splitTarget (Host req) = Some (host, seg)
                               /\ parsePort seg = Some port /\ port ∈ allowed).
Proof.
  intros HM. unfold Apply. rewrite HM. cbn [String.eqb].
  replace (MethodConnect =? MethodConnect)%string with true by reflexivity.
  destruct (splitTarget (Host req)) as [[host seg] |] eqn:S; [| left; auto].
  destruct (parsePort seg) as [port |] eqn:P.
  - destruct (decide (port ∈ allowed)) as [I | N].
    + right; right. split; [reflexivity |]. eauto 6.
    + right; left. split; [reflexivity |]. eauto 6.
  - left. split; [reflexivity |]. right. eauto.
Qed.

(** C7 at work: port 8081 is not among 443 and 8080. *)
Lemma C7_port_admission_cases_witness :
  Method (example.request "CONNECT" "site.com:8081" []) = MethodConnect
  /\ Apply {[443; 8080]} (example.request "CONNECT" "site.com:8081" [])
     = Reply StatusForbidden true.
Proof.
  split; [reflexivity |].
  destruct (C7_port_admission_cases {[443; 8080]}
              (example.request "CONNECT" "site.com:8081" []) eq_refl)
    as [[E _] | [[E _] | [E _]]]; [| exact E |];
    vm_compute in E; discriminate E.
Defined.

(** The cases of [TestFilterTunnelPorts]. *)
Example test_no_port :
  Apply {[443; 8080]} (example.request "CONNECT" "site.com" [])
  = Reply StatusBadRequest true.
Proof. reflexivity. Qed.

Example test_empty_port :
  Apply {[443; 8080]} (example.request "CONNECT" "site.com:" [])
  = Reply StatusBadRequest true.
Proof. reflexivity. Qed.

Example test_port_not_a_number :
  Apply {[443; 8080]} (example.request "CONNECT" "site.com:abc" [])
  = Reply StatusBadRequest true.
Proof. reflexivity. Qed.

Example test_port_443 :
  Apply {[443; 8080]} (example.request "CONNECT" "site.com:443" [])
  = Continue (example.request "CONNECT" "site.com:443" []).
Proof. vm_compute. reflexivity. Qed.

Example test_port_8080 :
  Apply {[443; 8080]} (example.request "CONNECT" "site.com:8080" [])
  = Continue (example.request "CONNECT" "site.com:8080" []).
Proof. vm_compute. reflexivity. Qed.

Example test_port_8081 :
  Apply {[443; 8080]} (example.request "CONNECT" "site.com:8081" [])
  = Reply StatusForbidden true.
Proof. vm_compute. reflexivity. Qed.

End PortAdmission.

(** ** tokenfilter *)

Section TokenFilter.

Import http filters tokenfilter.

Lemma tokenMatched_In (token : string) (tokens : list string) :
  tokenMatched token tokens = true <-> In token tokens.
Proof.
  induction tokens as [| t rest IH]; cbn [tokenMatched In].
  - split; [discriminate | tauto].
  - destruct (String.eqb_spec t token) as [-> | N].
    + split; auto.
    + rewrite IH. split; [auto | intros [E | I]]; [congruence | exact I].
Qed.

Lemma eqb_empty_false (s : string) : s <> "" -> (s =? "")%string = false.
Proof. intros N. destruct (String.eqb_spec s ""); congruence. Qed.

(** C4, as amended — with a non-empty secret, a request whose token
    header has a non-empty first value and, at any position, a value
    equal to the secret goes on to the rest of the chain with the token
    header removed, whatever the other values are. *)
Theorem C4_matching_token_continues (f : tokenFilter) (req : Request)
    (next : Next) (first : string) (others : list string) :
  token f <> "" ->
  ReqHeader req !! common.TokenHeader = Some (first :: others) ->
  first <> "" ->
  In (token f) (first :: others) ->
  let forwarded := DelHeader req common.TokenHeader in
  Apply f req next
  = {| result := next forwarded; requestAfter := forwarded;
       trace := [EvMimic false; EvNext forwarded] |}
  /\ ReqHeader forwarded !! common.TokenHeader = None.
Proof.
  intros Hsecret Hhdr Hfirst Hin forwarded. split.
  - unfold Apply. rewrite (eqb_empty_false _ Hsecret), Hhdr.
    rewrite (eqb_empty_false _ Hfirst).
    rewrite (proj2 (tokenMatched_In _ _) Hin). reflexivity.
  - unfold forwarded, DelHeader, withHeader, Del. cbn [ReqHeader].
    apply lookup_delete_eq.
Qed.

(** C4 at work: the secret is the second value. *)
Lemma C4_matching_token_continues_witness :
  let f := New "secret" in
  let req := example.request "GET" "example.org"
               [(common.TokenHeader, ["stale"; "secret"])] in
  token f <> ""
  /\ In (token f) ["stale"; "secret"]
  /\ result (Apply f req example.upstream)
     = example.upstream (DelHeader req common.TokenHeader).
Proof.
  intros f req.
  assert (Hs : token f <> "") by discriminate.
  assert (Hi : In (token f) ["stale"; "secret"]) by (right; left; reflexivity).
  split; [exact Hs |]. split; [exact Hi |].
  destruct (C4_matching_token_continues f req example.upstream "stale" ["secret"]
              Hs eq_refl ltac:(discriminate) Hi) as [E _].
  rewrite E. reflexivity.
Defined.

(** C4, as stated, fails: the secret is among the values of the token
    header, yet the empty first value sends the request to the mimicry
    path, and the rest of the chain is never called. *)
Lemma C4_counterexample_empty_first_value :
  let f := New "secret" in
  let req := example.request "GET" "example.org"
               [(common.TokenHeader, [""; "secret"])] in
  token f <> ""
  /\ ReqHeader req !! common.TokenHeader = Some [""; "secret"]
  /\ In (token f) [""; "secret"]
  /\ Apply f req example.upstream
     = {| result := Returned None None;
          requestAfter := req;
          trace := [EvLogError "No token provided, mimicking apache";
                    EvMimic true; EvApache req; EvConnClose] |}.
Proof.
  repeat split; [discriminate | right; left; reflexivity].
Qed.

End TokenFilter.

(** ** float64: rounding of a product *)

Section Rounding.

(** The number of binary digits of a positive number brackets it between
    two powers of two. *)
Lemma digits2_pos_bounds p :
  2 ^ (Zpos (digits2_pos p) - 1) <= Zpos p < 2 ^ Zpos (digits2_pos p).
Proof.
  induction p as [p IH | p IH |]; cbn [digits2_pos].
  - rewrite Pos2Z.inj_succ.
    replace (Z.succ (Zpos (digits2_pos p)) - 1)
      with (Z.succ (Zpos (digits2_pos p) - 1)) by lia.
    rewrite !Z.pow_succ_r by lia. lia.
  - rewrite Pos2Z.inj_succ.
    replace (Z.succ (Zpos (digits2_pos p)) - 1)
      with (Z.succ (Zpos (digits2_pos p) - 1)) by lia.
    rewrite !Z.pow_succ_r by lia. lia.
  - cbn. lia.
Qed.

(** One step of the right shift halves the mantissa. *)
Lemma shr_1_m mrs : 0 <= shr_m mrs -> shr_m (shr_1 mrs) = shr_m mrs / 2.
Proof.
  destruct mrs as [m r s]. cbn [shr_m]. intros Hm.
  destruct m as [| p | p]; [reflexivity | | lia].
  destruct p; cbn [shr_1 shr_m]; Z.div_mod_to_equations; lia.
Qed.

(** [n] steps divide it by [2 ^ n]. *)
Lemma shr_iter_m n mrs :
  0 <= shr_m mrs -> shr_m (SpecFloat.iter_pos shr_1 n mrs) = shr_m mrs / 2 ^ Zpos n.
Proof.
  revert mrs. induction n as [n IH | n IH |]; intros mrs Hm; cbn [SpecFloat.iter_pos].
  - assert (0 <= shr_m (shr_1 mrs)) by (rewrite shr_1_m by lia; apply Z.div_pos; lia).
    assert (0 <= shr_m (SpecFloat.iter_pos shr_1 n (shr_1 mrs))).
    { rewrite IH by lia. apply Z.div_pos; [lia | apply Z.pow_pos_nonneg; lia]. }
    rewrite !IH, shr_1_m by lia.
    rewrite !Z.div_div by (try apply Z.pow_pos_nonneg; lia).
    f_equal. rewrite Pos2Z.inj_xI. rewrite <- Z.pow_add_r, <- Z.pow_succ_r by lia.
    f_equal. lia.
  - assert (0 <= shr_m (SpecFloat.iter_pos shr_1 n mrs)).
    { rewrite IH by lia. apply Z.div_pos; [lia | apply Z.pow_pos_nonneg; lia]. }
    rewrite !IH by lia.
    rewrite !Z.div_div by (try apply Z.pow_pos_nonneg; lia).
    f_equal. rewrite Pos2Z.inj_xO. rewrite <- Z.pow_add_r by lia. f_equal. lia.
  - rewrite shr_1_m by lia. reflexivity.
Qed.

(** Rounding to nearest even keeps the mantissa or adds one. *)
Lemma round_nearest_even_bounds m l :
  m <= round_nearest_even m l <= m + 1.
Proof.
  unfold round_nearest_even. destruct l as [| []]; try destruct (Z.even m); lia.
Qed.

Lemma shr_record_of_loc_m m l : shr_m (shr_record_of_loc m l) = m.
Proof. destruct l as [| []]; reflexivity. Qed.

(** The shift applied to a mantissa of [53 + s] digits, away from the
    subnormal range: [s] digits are dropped and the exponent grows by
    [s]. *)
Lemma shr_fexp_m m e l (s : Z) :
  0 < m -> Zdigits2 m = 53 + s -> 0 <= s -> -1074 <= e + s ->
  let '(mrs, e') := shr_fexp 53 1024 m e l in
  shr_m mrs = m / 2 ^ s /\ e' = e + s.
Proof.
  intros Hm Hd Hs He. unfold shr_fexp, fexp, emin. rewrite Hd.
  replace (Z.max (53 + s + e - 53) (3 - 1024 - 53) - e) with s by lia.
  unfold shr. destruct s as [| p | p]; [ | | lia].
  - rewrite shr_record_of_loc_m, Z.div_1_r. split; [reflexivity | lia].
  - rewrite shr_iter_m by (rewrite shr_record_of_loc_m; lia).
    rewrite shr_record_of_loc_m. split; reflexivity.
Qed.

Lemma Zdigits2_bounds m : 0 < m -> 2 ^ (Zdigits2 m - 1) <= m < 2 ^ Zdigits2 m.
Proof.
  destruct m as [| p | p]; try lia. intros _. apply digits2_pos_bounds.
Qed.

Lemma Zdigits2_unique m d :
  0 < d -> 2 ^ (d - 1) <= m < 2 ^ d -> Zdigits2 m = d.
Proof.
  intros Hd Hm. assert (0 < m) by (pose proof (Z.pow_pos_nonneg 2 (d - 1)); lia).
  pose proof (Zdigits2_bounds m H) as B.
  assert (0 < Zdigits2 m) by (destruct m; cbn; lia).
  destruct (Z.lt_trichotomy (Zdigits2 m) d) as [L | [E | G]]; [exfalso | exact E | exfalso].
  - assert (2 ^ Zdigits2 m <= 2 ^ (d - 1)) by (apply Z.pow_le_mono_r; lia). lia.
  - assert (2 ^ d <= 2 ^ (Zdigits2 m - 1)) by (apply Z.pow_le_mono_r; lia). lia.
Qed.

Lemma pow2_split (a b : Z) : 0 <= a -> 0 <= b -> 2 ^ (a + b) = 2 ^ a * 2 ^ b.
Proof. intros. apply Z.pow_add_r; lia. Qed.

(** The rounded product of a float64 of at least 1.0 (mantissa [m] of 53
    digits, exponent at least -52) and 1e6 (mantissa 8589934592000000,
    exponent -33) is infinite, or a finite value whose integer part is at
    least one million. *)
Lemma round_mul_lower (m : positive) (e : Z) :
  2 ^ 52 <= Zpos m < 2 ^ 53 -> -52 <= e ->
  match binary_round_aux 53 1024 false (Zpos (m * 8589934592000000)) (e + -33) loc_Exact with
  | S754_finite false m' e' => 1000000 <= Z.shiftl (Zpos m') e'
  | S754_infinity false => True
  | _ => False
  end.
Proof.
  intros Hm He.
  rewrite Pos2Z.inj_mul. set (M := Zpos m * 8589934592000000).
  assert (HM : 2 ^ 104 <= M < 2 ^ 106) by (subst M; lia).
  assert (HM0 : 0 < M) by lia.
  pose proof (Zdigits2_bounds M HM0) as HdM.
  assert (Hd : Zdigits2 M = 53 + 52 \/ Zdigits2 M = 53 + 53).
  { assert (104 < Zdigits2 M).
    { apply Z.nle_gt. intros C.
      assert (2 ^ Zdigits2 M <= 2 ^ 104) by (apply Z.pow_le_mono_r; lia). lia. }
    assert (Zdigits2 M - 1 < 106).
    { apply Z.nle_gt. intros C.
      assert (2 ^ 106 <= 2 ^ (Zdigits2 M - 1)) by (apply Z.pow_le_mono_r; lia). lia. }
    lia. }
  assert (exists s, (s = 52 \/ s = 53) /\ Zdigits2 M = 53 + s) as (s & Hs & HdMs)
    by (destruct Hd; eauto).
  unfold binary_round_aux.
  pose proof (shr_fexp_m M (e + -33) loc_Exact s HM0 HdMs ltac:(lia) ltac:(lia)) as S1.
  destruct (shr_fexp 53 1024 M (e + -33) loc_Exact) as [mrs' e'].
  destruct S1 as [Hm1 He'].
  set (M1 := shr_m mrs') in *.
  assert (HM1 : 2 ^ 52 <= M1 < 2 ^ 53 /\ 2 ^ s * M1 <= M).
  { rewrite HdMs in HdM. rewrite Hm1.
    destruct Hs as [-> | ->].
    - change (53 + 52 - 1) with 104 in HdM. change (53 + 52) with 105 in HdM.
      Z.div_mod_to_equations. lia.
    - change (53 + 53 - 1) with 105 in HdM. change (53 + 53) with 106 in HdM.
      Z.div_mod_to_equations. lia. }
  pose proof (round_nearest_even_bounds M1 (loc_of_shr_record mrs')) as HR.
  set (M2 := round_nearest_even M1 (loc_of_shr_record mrs')) in *.
  assert (exists s2, (s2 = 0 /\ M2 < 2 ^ 53 \/ s2 = 1 /\ M2 = 2 ^ 53) /\ Zdigits2 M2 = 53 + s2)
    as (s2 & Hs2 & HdM2).
  { destruct (Z.lt_ge_cases M2 (2 ^ 53)) as [L | G].
    - exists 0. split; [left; split; [reflexivity | exact L] |].
      apply Zdigits2_unique; [lia|]. cbn [Z.add Z.sub Pos.add Z.pos_sub Z.opp]. lia.
    - exists 1. assert (M2 = 2 ^ 53) as -> by lia. split; [right; split; reflexivity |].
      reflexivity. }
  pose proof (shr_fexp_m M2 e' loc_Exact s2 ltac:(lia) HdM2 ltac:(lia) ltac:(lia)) as S2.
  destruct (shr_fexp 53 1024 M2 e' loc_Exact) as [mrs'' e''].
  destruct S2 as [Hm3 He''].
  set (M3 := shr_m mrs'') in *.
  assert (HM3 : 2 ^ 52 <= M3 /\ 2 ^ s2 * M3 <= M2 /\ (s2 = 1 -> M3 = 2 ^ 52)).
  { rewrite Hm3. destruct Hs2 as [[-> L] | [-> E2]].
    - change (2 ^ 0) with 1. rewrite Z.div_1_r. lia.
    - rewrite E2. replace (2 ^ 53 / 2 ^ 1) with (2 ^ 52) by reflexivity. lia. }
  destruct M3 as [| m3 | m3] eqn:EM3; [lia | | lia].
  destruct (e'' <=? 1024 - 53); [| exact I].
  destruct (Z.le_gt_cases 0 e'') as [Hpos | Hneg].
  - rewrite Z.shiftl_mul_pow2 by lia.
    assert (1 <= 2 ^ e'') by (pose proof (Z.pow_pos_nonneg 2 e''); lia).
    nia.
  - rewrite Z.shiftl_div_pow2 by lia.
    apply Z.div_le_lower_bound; [apply Z.pow_pos_nonneg; lia |].
    set (k := - e'') in *.
    assert (Hk : 0 < k) by lia.
    assert (HP : 2 ^ (- e) = 2 ^ k * 2 ^ (s + s2 - 33)).
    { rewrite <- pow2_split by lia. f_equal. lia. }
    assert (HPm : 2 ^ (- e) <= 2 ^ 52) by (apply Z.pow_le_mono_r; lia).
    assert (HK : 0 < 2 ^ k) by (apply Z.pow_pos_nonneg; lia).
    set (K := 2 ^ k) in *. set (P := 2 ^ (- e)) in *. clearbody K P.
    clear HdM Hd HdMs HdM2.
    destruct Hs as [-> | ->]; destruct Hs2 as [[-> L] | [-> E2]];
      match type of HP with _ = _ * 2 ^ ?x =>
        let v := eval vm_compute in x in change x with v in HP end;
      subst M; Z.div_mod_to_equations; lia.
Qed.

Lemma of_Z_one : float64.of_Z 1 = S754_finite false 4503599627370496 (-52).
Proof. reflexivity. Qed.

Lemma of_Z_oneMillion :
  float64.of_Z versioncheck.oneMillion = S754_finite false 8589934592000000 (-33).
Proof. reflexivity. Qed.

(** A finite float64 that is at least 1.0 is positive, normal and has an
    exponent of at least -52. *)
Lemma ge_one_finite (s : bool) (m : positive) (e : Z) :
  float64.valid (S754_finite s m e) = true ->
  float64.leb (float64.of_Z 1) (S754_finite s m e) = true ->
  s = false /\ 2 ^ 52 <= Zpos m < 2 ^ 53 /\ -52 <= e.
Proof.
  rewrite of_Z_one. unfold float64.valid, float64.leb, valid_binary, bounded,
    canonical_mantissa, fexp, emin, float64.prec, float64.emax, SFleb, SFcompare.
  rewrite andb_true_iff, Z.eqb_eq, Z.leb_le. intros [Hc Hb] Hle.
  destruct s; [discriminate|].
  assert (-52 <= e) as He.
  { revert Hle. destruct (Z.compare_spec (-52) e); [lia | lia | discriminate]. }
  pose proof (digits2_pos_bounds m) as B.
  assert (Zpos (digits2_pos m) = 53) as D by lia.
  rewrite D in B. change (53 - 1) with 52 in B. auto.
Qed.

(** For [p >= 1.0], the integer part of [p * 1e6], when there is one, is
    at least one million. *)
Lemma mul_oneMillion_ge (p : float64.t) (n : Z) :
  float64.valid p = true ->
  float64.leb (float64.of_Z 1) p = true ->
  float64.trunc (float64.mul p (float64.of_Z versioncheck.oneMillion)) = Some n ->
  1000000 <= n.
Proof.
  intros Hv Hle. rewrite of_Z_oneMillion.
  destruct p as [s | s | | s m e].
  - discriminate.
  - destruct s; discriminate.
  - discriminate.
  - destruct (ge_one_finite s m e Hv Hle) as (-> & Hm & He).
    unfold float64.mul, SFmul, float64.prec, float64.emax. cbn [xorb].
    pose proof (round_mul_lower m e Hm He) as R.
    destruct (binary_round_aux 53 1024 false _ _ _) as [s' | s' | | s' m' e'];
      try destruct s'; try contradiction; cbn [float64.trunc cond_Zopp]; try discriminate.
    intros [= <-]. exact R.
Qed.

End Rounding.

(** ** versioncheck: the gate *)

Section VersionGate.

Import http filters versioncheck.
Context `{Lib}.

(** [matchVersion] is the conjunction of its three conditions. *)
Lemma matchVersion_spec (c : VersionChecker) (req : Request) (draw : Z) :
  matchVersion c req draw
  = negb (toRewriteHost c req) && redirectCandidate c req && (draw <? ppm c).
Proof.
  unfold matchVersion, toRewriteHost, redirectCandidate.
  destruct (String.eqb (Host req) (url.Host (rewriteURL c))); [reflexivity |].
  destruct (semver_Make _) as [v | e]; cbn [negb andb].
  - destruct (versionRange c v); cbn [negb andb]; [| reflexivity].
    rewrite Z.ltb_antisym. destruct (ppm c <=? draw); reflexivity.
  - rewrite Z.ltb_antisym. destruct (ppm c <=? draw); reflexivity.
Qed.

Lemma shouldRedirect_false (c : VersionChecker) (req : Request) (draw : Z) :
  matchVersion c req draw = false -> shouldRedirect c req draw = false.
Proof.
  intros M. unfold shouldRedirect. rewrite M.
  repeat match goal with |- context [if ?b then _ else _] => destruct b end;
    reflexivity.
Qed.

Lemma shouldRedirectOnConnect_false (c : VersionChecker) (req : Request) (draw : Z) :
  matchVersion c req draw = false -> shouldRedirectOnConnect c req draw = false.
Proof. intros M. unfold shouldRedirectOnConnect. rewrite M. reflexivity. Qed.

(** When the gate is closed, [Apply] hands the request, as it came, to
    the rest of the chain. *)
Lemma Apply_gate_closed (c : VersionChecker) (conn : Conn) (req : Request)
    (draw : Z) (next : Next) :
  matchVersion c req draw = false ->
  Apply c conn req draw next
  = {| result := next req;
       requestAfter := DelHeader req common.VersionHeader;
       trace := [EvNext req] |}.
Proof.
  intros M. unfold Apply.
  rewrite (shouldRedirect_false _ _ _ M), (shouldRedirectOnConnect_false _ _ _ M).
  repeat match goal with |- context [if ?b then _ else _] => destruct b end;
    reflexivity.
Qed.

Lemma portMeet_In (port : string) (ports : list string) :
  portMeet port ports = true <-> In port ports.
Proof.
  induction ports as [| p rest IH]; cbn [portMeet In].
  - split; [discriminate | tauto].
  - destruct (String.eqb_spec port p) as [-> | N].
    + split; auto.
    + rewrite IH. split; [auto | intros [E | I]]; [congruence | exact I].
Qed.

(** What [New] stores. *)
Lemma New_ppm (vr u : string) (ports : list string) (percentage : float64.t)
    (c : VersionChecker) :
  New vr u ports percentage = inl c ->
  ppm c = float64.to_int int_unrepresentable
            (float64.mul percentage (float64.of_Z oneMillion)).
Proof.
  unfold New. destruct (url_Parse u); [| discriminate].
  destruct (semver_ParseRange vr); [| discriminate].
  intros [= <-]. reflexivity.
Qed.

(** C1 — the code does not do what the claim says: when the read of the
    tunneled request fails after the 200 has been written, the error is
    logged, and the nil request is then dereferenced; the call panics
    and no 302 is produced. *)
Theorem C1_failed_read_panics (c : VersionChecker) (req : Request) (err : string) :
  redirectOnConnect c {| writeErr := None; tunneled := inr err |} req
  = (Panicked "invalid memory address or nil pointer dereference",
     [EvWrite ok200;
      EvLogError ("Fail to read tunneled request before redirecting: " ++ err)]).
Proof. reflexivity. Qed.

(** C2, as amended — a version header that parses to a version outside
    the configured range closes the gate: [matchVersion] is false and the
    request is not redirected.  Only a version inside the range, or a
    header that does not parse, reaches the draw. *)
Theorem C2_version_outside_range_not_redirected (c : VersionChecker)
    (conn : Conn) (req : Request) (draw : Z) (next : Next) (v : Version) :
  semver_Make (Get (ReqHeader req) common.VersionHeader) = inl v ->
  versionRange c v = false ->
  matchVersion c req draw = false
  /\ result (Apply c conn req draw next) = next req.
Proof.
  intros P R.
  assert (M : matchVersion c req draw = false).
  { rewrite matchVersion_spec. unfold redirectCandidate. rewrite P, R.
    destruct (negb _); reflexivity. }
  split; [exact M |]. rewrite (Apply_gate_closed _ _ _ _ _ M). reflexivity.
Qed.

(** The converse reading of C2: a request that passes the gate has a
    version inside the range, or none that parses. *)
Lemma matchVersion_true_candidate (c : VersionChecker) (req : Request) (draw : Z) :
  matchVersion c req draw = true ->
  match semver_Make (Get (ReqHeader req) common.VersionHeader) with
  | inl v => versionRange c v = true
  | inr _ => True
  end.
Proof.
  rewrite matchVersion_spec, !andb_true_iff. unfold redirectCandidate.
  intros [[_ C] _]. destruct (semver_Make _); [exact C | exact I].
Qed.

(** The part of C6 that holds: a request whose [Host] is, as a string,
    the host of the rewrite URL is never redirected. *)
Lemma matchVersion_rewrite_host (c : VersionChecker) (req : Request) (draw : Z) :
  Host req = url.Host (rewriteURL c) -> matchVersion c req draw = false.
Proof.
  intros E. rewrite matchVersion_spec. unfold toRewriteHost.
  rewrite E, String.eqb_refl. reflexivity.
Qed.

(** C8, as amended — a rate of 0 closes the gate for every request and
    every draw; at a rate of 1 (100%) no draw is rejected, and every
    request that is not addressed to the rewrite host, whose version is
    inside the configured range or does not parse, and that meets the
    conditions of its method is redirected: a GET is answered with the
    302, and so is a CONNECT to a checked port, once the 200 has been
    written on the connection and a request has been read from the
    tunnel. *)
Theorem C8_sampling_extremes (vr u : string) (ports : list string)
    (conn : Conn) (req : Request) (draw : Z) (next : Next) :
  0 <= draw < oneMillion ->
  (forall c, New vr u ports (float64.of_Z 0) = inl c ->
     matchVersion c req draw = false
     /\ result (Apply c conn req draw next) = next req)
  /\ (forall c, New vr u ports (float64.of_Z 1) = inl c ->
        toRewriteHost c req = false ->
        redirectCandidate c req = true ->
        matchVersion c req draw = true
        /\ (Method req = MethodGet ->
            strings.HasPrefix (Get (ReqHeader req) "Accept") "text/html" = true ->
            strings.HasPrefix (Get (ReqHeader req) "User-Agent") "Mozilla/" = true ->
            result (Apply c conn req draw next)
            = Returned (Some (found302 c)) None)
        /\ (Method req = MethodConnect ->
            forall host port inner,
              net.SplitHostPort (Host req) = Some (host, port) ->
              In port (tunnelPorts c) ->
              writeErr conn = None ->
              tunneled conn = inl inner ->
              result (Apply c conn req draw next)
              = Returned (Some (found302 c)) None)).
Proof.
  intros Hdraw. split.
  - intros c HN. apply New_ppm in HN.
    assert (P : ppm c = 0) by (rewrite HN; reflexivity).
    assert (M : matchVersion c req draw = false).
    { rewrite matchVersion_spec, P.
      replace (draw <? 0) with false by (symmetry; apply Z.ltb_ge; lia).
      rewrite andb_false_r. reflexivity. }
    split; [exact M |]. rewrite (Apply_gate_closed _ _ _ _ _ M). reflexivity.
  - intros c HN Hhost Hcand. apply New_ppm in HN.
    assert (P : ppm c = 1000000) by (rewrite HN; reflexivity).
    assert (M : matchVersion c req draw = true).
    { rewrite matchVersion_spec, P, Hhost, Hcand.
      replace (draw <? 1000000) with true
        by (symmetry; apply Z.ltb_lt; unfold oneMillion in Hdraw; lia).
      reflexivity. }
    split; [exact M |]. split.
    + intros HG HA HU. unfold Apply, shouldRedirect. rewrite HG, HA, HU, M.
      reflexivity.
    + intros HC host port inner HS HP HW HT. unfold Apply, shouldRedirectOnConnect.
      rewrite HC, M, HS. rewrite (proj2 (portMeet_In _ _) HP).
      cbn [negb]. replace (MethodConnect =? MethodConnect)%string with true by reflexivity.
      unfold redirectOnConnect, ReadRequest. rewrite HW, HT. reflexivity.
Qed.

End VersionGate.

Section Threshold.

Import http filters versioncheck.
Context `{Lib}.

(** C9, as amended — [New] stores [int(percentage * 1000000)], so the
    percentage is a fraction of one; for every percentage of at least 1.0
    whose product with one million is an [int] value, the threshold is at
    least one million and the draw never closes the gate. *)
Theorem C9_percentage_is_fraction_of_one (vr u : string) (ports : list string)
    (percentage : float64.t) (c : VersionChecker) :
  New vr u ports percentage = inl c ->
  float64.valid percentage = true ->
  float64.leb (float64.of_Z 1) percentage = true ->
  float64.representable (float64.mul percentage (float64.of_Z oneMillion)) = true ->
  ppm c = float64.to_int int_unrepresentable
            (float64.mul percentage (float64.of_Z oneMillion))
  /\ oneMillion <= ppm c
  /\ forall req draw, 0 <= draw < oneMillion ->
       matchVersion c req draw
       = negb (toRewriteHost c req) && redirectCandidate c req.
Proof.
  intros HN Hv Hge Hrep. apply New_ppm in HN. split; [exact HN |].
  assert (P : oneMillion <= ppm c).
  { rewrite HN. unfold float64.to_int. unfold float64.representable in Hrep.
    destruct (float64.trunc _) as [n |] eqn:T; [| discriminate].
    rewrite Hrep. apply (mul_oneMillion_ge percentage n Hv Hge T). }
  split; [exact P |]. intros req draw Hd.
  rewrite matchVersion_spec.
  replace (draw <? ppm c) with true by (symmetry; apply Z.ltb_lt; lia).
  apply andb_true_r.
Qed.

End Threshold.

Section Examples.

Import http filters versioncheck example.

Lemma New_checker (percentage : float64.t) :
  New "<3.0.0" "http://upgrade.example.com/notice" [] percentage
  = inl (checker percentage).
Proof. reflexivity. Qed.

(** C9 at work: a rate of 5 gives a threshold of five million, and the
    highest draw passes. *)
Lemma C9_percentage_is_fraction_of_one_witness :
  float64.leb (float64.of_Z 1) (float64.of_Z 5) = true
  /\ ppm (checker (float64.of_Z 5)) = 5000000
  /\ matchVersion (checker (float64.of_Z 5))
       (request "GET" "example.org" (browser "2.0.0")) 999999 = true.
Proof.
  assert (Hv : float64.valid (float64.of_Z 5) = true) by (vm_compute; reflexivity).
  assert (Hg : float64.leb (float64.of_Z 1) (float64.of_Z 5) = true)
    by (vm_compute; reflexivity).
  assert (Hr : float64.representable
                 (float64.mul (float64.of_Z 5) (float64.of_Z oneMillion)) = true)
    by (vm_compute; reflexivity).
  destruct (C9_percentage_is_fraction_of_one _ _ _ _ _
              (New_checker (float64.of_Z 5)) Hv Hg Hr) as (P & _ & G).
  split; [exact Hg |]. split.
  - rewrite P. vm_compute. reflexivity.
  - rewrite G by (vm_compute; split; [discriminate | reflexivity]).
    vm_compute. reflexivity.
Defined.

(** C9, as stated, fails on amd64: 1e13 is at least 1.0, its product with
    one million is no [int] value, the threshold becomes the least
    int64, and every draw closes the gate. *)
Lemma C9_counterexample_unrepresentable_product :
  let c := checker (float64.of_Z (10 ^ 13)) in
  New "<3.0.0" "http://upgrade.example.com/notice" [] (float64.of_Z (10 ^ 13)) = inl c
  /\ float64.valid (float64.of_Z (10 ^ 13)) = true
  /\ float64.leb (float64.of_Z 1) (float64.of_Z (10 ^ 13)) = true
  /\ ppm c = goint.minInt64
  /\ ppm c < oneMillion
  /\ matchVersion c (request "GET" "example.org" (browser "2.0.0")) 0 = false.
Proof.
  split; [apply New_checker |].
  vm_compute. repeat split; reflexivity.
Qed.

End Examples.

Section GateExamples.

Import http filters versioncheck example.

(** C2 at work: version 4.0.0 against the range "<3.0.0". *)
Lemma C2_version_outside_range_not_redirected_witness :
  let c := checker (float64.of_Z 1) in
  let req := request "GET" "example.org" (browser "4.0.0") in
  semver_Make (Get (ReqHeader req) common.VersionHeader) = inl (4, 0, 0)
  /\ versionRange c (4, 0, 0) = false
  /\ matchVersion c req 0 = false.
Proof.
  intros c req.
  assert (P : semver_Make (Get (ReqHeader req) common.VersionHeader) = inl (4, 0, 0))
    by (vm_compute; reflexivity).
  assert (R : versionRange c (4, 0, 0) = false) by (vm_compute; reflexivity).
  split; [exact P |]. split; [exact R |].
  exact (proj1 (C2_version_outside_range_not_redirected c hangup req 0 upstream
                  (4, 0, 0) P R)).
Defined.

(** C2, as stated, fails: the version 2.0.0 parses and lies inside the
    configured range "<3.0.0", and [matchVersion] is true; the browser's
    GET is answered with the redirect. *)
Lemma C2_counterexample_version_inside_range :
  let c := checker (float64.of_Z 1) in
  let req := request "GET" "example.org" (browser "2.0.0") in
  New "<3.0.0" "http://upgrade.example.com/notice" [] (float64.of_Z 1) = inl c
  /\ semver_Make (Get (ReqHeader req) common.VersionHeader) = inl (2, 0, 0)
  /\ versionRange c (2, 0, 0) = true
  /\ matchVersion c req 0 = true
  /\ result (Apply c hangup req 0 upstream) = Returned (Some (found302 c)) None.
Proof.
  split; [apply New_checker |].
  vm_compute. repeat split; reflexivity.
Qed.

(** C1 at work: a CONNECT of an outdated client to port 80, and a client
    that hangs up after the 200; [Apply] panics. *)
Example Apply_panics_on_hangup :
  let c := checker (float64.of_Z 1) in
  let req := request "CONNECT" "example.org:80" [(common.VersionHeader, ["2.0.0"])] in
  shouldRedirectOnConnect c req 0 = true
  /\ result (Apply c hangup req 0 upstream)
     = Panicked "invalid memory address or nil pointer dereference".
Proof. vm_compute. split; reflexivity. Qed.

(** C5 — the code does not do what the claim says: the deletion of the
    version header is deferred to the return of [Apply], so the rest of
    the chain is called with the header still in the request; only the
    request as [Apply] leaves it is without the header. *)
Theorem C5_next_receives_version_header :
  let c := checker (float64.of_Z 1) in
  let req := request "POST" "example.org" [(common.VersionHeader, ["2.0.0"])] in
  trace (Apply c hangup req 0 upstream) = [EvNext req]
  /\ ReqHeader req !! common.VersionHeader = Some ["2.0.0"]
  /\ ReqHeader (requestAfter (Apply c hangup req 0 upstream)) !! common.VersionHeader = None.
Proof. vm_compute. repeat split; reflexivity. Qed.

(** C6 — the code does not do what the claim says: the target of a
    CONNECT is "host:port", which is never the bare host of the rewrite
    URL, so a CONNECT to the rewrite host itself passes the gate and is
    redirected. *)
Theorem C6_connect_to_rewrite_host_is_redirected :
  let c := checker (float64.of_Z 1) in
  let req := request "CONNECT" "upgrade.example.com:80"
               [(common.VersionHeader, ["2.0.0"])] in
  net.SplitHostPort (Host req) = Some (url.Host (rewriteURL c), "80")
  /\ matchVersion c req 0 = true
  /\ shouldRedirectOnConnect c req 0 = true
  /\ result (Apply c tunnel req 0 upstream) = Returned (Some (found302 c)) None.
Proof. vm_compute. repeat split; reflexivity. Qed.

(** C8 at work: the highest draw, at rates 0 and 1, for a GET and for a
    CONNECT to port 80 on the tunnel of the examples. *)
Lemma C8_sampling_extremes_witness :
  let req := request "GET" "example.org" (browser "2.0.0") in
  let req' := request "CONNECT" "example.org:80" [(common.VersionHeader, ["2.0.0"])] in
  0 <= 999999 < oneMillion
  /\ matchVersion (checker (float64.of_Z 0)) req 999999 = false
  /\ result (Apply (checker (float64.of_Z 1)) hangup req 999999 upstream)
     = Returned (Some (found302 (checker (float64.of_Z 1)))) None
  /\ result (Apply (checker (float64.of_Z 1)) tunnel req' 999999 upstream)
     = Returned (Some (found302 (checker (float64.of_Z 1)))) None.
Proof.
  intros req req'.
  assert (D : 0 <= 999999 < oneMillion) by (vm_compute; split; [discriminate | reflexivity]).
  destruct (C8_sampling_extremes "<3.0.0" "http://upgrade.example.com/notice" []
              hangup req 999999 upstream D) as [Z O].
  destruct (C8_sampling_extremes "<3.0.0" "http://upgrade.example.com/notice" []
              tunnel req' 999999 upstream D) as [_ O'].
  split; [exact D |]. split; [| split].
  - exact (proj1 (Z _ (New_checker _))).
  - destruct (O _ (New_checker _)) as (_ & G & _);
      [vm_compute; reflexivity | vm_compute; reflexivity |].
    apply G; vm_compute; reflexivity.
  - destruct (O' _ (New_checker _)) as (_ & _ & C);
      [vm_compute; reflexivity | vm_compute; reflexivity |].
    apply (C eq_refl "example.org" "80" (request "GET" "example.org" []));
      [vm_compute; reflexivity | left; reflexivity | reflexivity | reflexivity].
Defined.

(** C8, as stated, fails at a rate of 100%: a browser whose version 4.0.0
    is outside the configured range "<3.0.0" is not redirected, and
    neither is an outdated browser on its way to the rewrite host; and an
    outdated client whose CONNECT to port 80 meets every condition gets
    no 302 when the 200 cannot be written (the error of the write comes
    back) or when no request can be read from the tunnel (the filter
    panics). *)
Lemma C8_counterexample_outside_range_not_redirected :
  let c := checker (float64.of_Z 1) in
  let req := request "GET" "example.org" (browser "4.0.0") in
  let req' := request "GET" "upgrade.example.com" (browser "2.0.0") in
  let connect := request "CONNECT" "example.org:80" [(common.VersionHeader, ["2.0.0"])] in
  New "<3.0.0" "http://upgrade.example.com/notice" [] (float64.of_Z 1) = inl c
  /\ ppm c = oneMillion
  /\ semver_Make (Get (ReqHeader req) common.VersionHeader) = inl (4, 0, 0)
  /\ versionRange c (4, 0, 0) = false
  /\ shouldRedirect c req 0 = false
  /\ result (Apply c hangup req 0 upstream) = upstream req
  /\ shouldRedirect c req' 0 = false
  /\ shouldRedirectOnConnect c connect 0 = true
  /\ result (Apply c example_more.broken connect 0 upstream)
     = Returned None (Some "broken pipe")
  /\ result (Apply c hangup connect 0 upstream)
     = Panicked "invalid memory address or nil pointer dereference".
Proof.
  split; [apply New_checker |].
  vm_compute. repeat split; reflexivity.
Qed.

End GateExamples.

(** ** time: the calendar *)

Section Calendar.

Import time calendar redis.


(** The cycles of [daysSinceEpoch] in closed form. *)
Lemma daysSinceEpoch_closed y :
  daysSinceEpoch y = 365 * (y - 1) + (y - 1) / 4 - (y - 1) / 100 + (y - 1) / 400.
Proof.
  unfold daysSinceEpoch, daysPer400Years, daysPer100Years, daysPer4Years.
  cbv zeta. Z.div_mod_to_equations. lia.
Qed.

Lemma isLeap_spec y :
  isLeap y = true <-> (y mod 4 = 0 /\ (y mod 100 <> 0 \/ y mod 400 = 0)).
Proof.
  unfold isLeap. rewrite andb_true_iff, orb_true_iff, negb_true_iff.
  rewrite !Z.eqb_eq, Z.eqb_neq. tauto.
Qed.

Lemma daysSinceEpoch_succ y :
  daysSinceEpoch (y + 1) = daysSinceEpoch y + yearLength y.
Proof.
  rewrite !daysSinceEpoch_closed. unfold yearLength.
  destruct (isLeap y) eqn:E.
  - apply isLeap_spec in E. Z.div_mod_to_equations. lia.
  - assert (~ (y mod 4 = 0 /\ (y mod 100 <> 0 \/ y mod 400 = 0))) as N
      by (rewrite <- isLeap_spec; congruence).
    Z.div_mod_to_equations. lia.
Qed.

Lemma daysSinceEpoch_mono y1 y2 : y1 <= y2 -> daysSinceEpoch y1 <= daysSinceEpoch y2.
Proof.
  intros. rewrite !daysSinceEpoch_closed. Z.div_mod_to_equations. lia.
Qed.

(** The year found for a count of days starts on or before that day, and
    the day of the year lies within the year. *)
Lemma yearAndDay_spec d :
  let '(y, yd) := yearAndDay d in
  daysSinceEpoch y + yd = d /\ 0 <= yd < yearLength y.
Proof.
  unfold yearAndDay, yearLength. cbv zeta.
  rewrite daysSinceEpoch_closed.
  unfold daysPer400Years, daysPer100Years, daysPer4Years.
  set (n1 := d / (365 * 400 + 97)).
  set (d1 := d - (365 * 400 + 97) * n1).
  set (n2 := d1 / (365 * 100 + 24)).
  set (n2' := n2 - n2 / 4).
  set (d2 := d1 - (365 * 100 + 24) * n2').
  set (n3 := d2 / (365 * 4 + 1)).
  set (d3 := d2 - (365 * 4 + 1) * n3).
  set (n4 := d3 / 365).
  set (n4' := n4 - n4 / 4).
  set (yd := d3 - 365 * n4').
  set (y := 400 * n1 + 100 * n2' + 4 * n3 + n4' + 1).
  assert (H1 : 0 <= d1 < 146097) by (subst d1 n1; Z.div_mod_to_equations; lia).
  assert (H2 : 0 <= n2' <= 3 /\ 0 <= d2 /\ (n2' < 3 -> d2 < 36524) /\ d2 <= 36524)
    by (subst d2 n2' n2; Z.div_mod_to_equations; lia).
  assert (H3 : 0 <= n3 <= 24 /\ 0 <= d3 <= 1460 /\ (n2' < 3 -> n3 = 24 -> d3 < 1460))
    by (subst d3 n3; Z.div_mod_to_equations; lia).
  assert (H4 : 0 <= n4' <= 3 /\ 0 <= yd /\ (n4' < 3 -> yd < 365) /\ yd <= 365
               /\ (n2' < 3 -> n3 = 24 -> yd < 365))
    by (subst yd n4' n4; Z.div_mod_to_equations; lia).
  assert (Hy : y - 1 = 400 * n1 + 100 * n2' + 4 * n3 + n4') by (subst y; lia).
  assert (Hd : d = 146097 * n1 + 36524 * n2' + 1461 * n3 + 365 * n4' + yd)
    by (subst yd d3 d2 d1; lia).
  clearbody n1 d1 n2' d2 n3 d3 n4' yd y. clear n2 n4.
  split.
  - rewrite Hy, Hd. Z.div_mod_to_equations. lia.
  - destruct (isLeap y) eqn:E.
    + lia.
    + assert (~ (y mod 4 = 0 /\ (y mod 100 <> 0 \/ y mod 400 = 0))) as N
        by (rewrite <- isLeap_spec; congruence).
      assert (yd < 365 \/ yd = 365) as [?|?] by lia; [lia|].
      exfalso. apply N. 
      assert (n4' = 3) by lia.
      assert (n2' = 3 \/ n3 <> 24) by lia.
      Z.div_mod_to_equations. lia.
Qed.

Lemma absDate_split a :
  absDate a =
    let '(y, yd) := yearAndDay (a / secondsPerDay) in
    let '(m, d) := monthAndDay (isLeap y) yd in (y, m, d).
Proof.
  unfold absDate, yearAndDay, monthAndDay. cbv zeta.
  match goal with |- context [isLeap ?y && (?yd =? _)] =>
    destruct (isLeap y && (yd =? 31 + 29 - 1)); [reflexivity|] end.
  match goal with |- context [if ?c then (_, _) else (_, _)] => destruct c end;
    reflexivity.
Qed.

(** A check over an initial segment of the naturals, run once. *)
Lemma forallb_range (P : Z -> bool) (n : nat) :
  forallb P (map Z.of_nat (seq 0 n)) = true ->
  forall z, 0 <= z < Z.of_nat n -> P z = true.
Proof.
  intros Hall z Hz. rewrite forallb_forall in Hall. apply Hall.
  apply in_map_iff. exists (Z.to_nat z). split; [lia|].
  apply in_seq. lia.
Qed.

Lemma monthAndDay_spec (leap : bool) (yd : Z) :
  0 <= yd < (if leap then 366 else 365) ->
  let '(m, d) := monthAndDay leap yd in
  1 <= m <= 12 /\ 1 <= d <= daysIn leap m /\ dayOfYear leap m d = yd.
Proof.
  intros Hyd.
  assert (monthAndDay_ok leap yd = true) as Hok.
  { destruct leap.
    - apply (forallb_range (monthAndDay_ok true) 366); [vm_compute; reflexivity | lia].
    - apply (forallb_range (monthAndDay_ok false) 365); [vm_compute; reflexivity | lia]. }
  unfold monthAndDay_ok in Hok. destruct (monthAndDay leap yd) as [m d].
  rewrite !andb_true_iff, !Z.leb_le, Z.eqb_eq in Hok. lia.
Qed.

Lemma dayOfYear_spec (leap : bool) (m d : Z) :
  1 <= m <= 12 -> 1 <= d <= daysIn leap m ->
  0 <= dayOfYear leap m d < (if leap then 366 else 365)
  /\ monthAndDay leap (dayOfYear leap m d) = (m, d).
Proof.
  intros Hm Hd.
  assert (d <= 31) as Hd31.
  { assert (daysIn leap m <= 31) by (unfold daysIn; repeat case_match; lia). lia. }
  assert (dayOfYear_ok leap ((m - 1) * 32 + d) = true) as Hok.
  { destruct leap.
    - apply (forallb_range (dayOfYear_ok true) 384); [vm_compute; reflexivity | lia].
    - apply (forallb_range (dayOfYear_ok false) 384); [vm_compute; reflexivity | lia]. }
  unfold dayOfYear_ok in Hok. cbv zeta in Hok.
  replace (((m - 1) * 32 + d) / 32 + 1) with m in Hok
    by (Z.div_mod_to_equations; lia).
  replace (((m - 1) * 32 + d) mod 32) with d in Hok
    by (Z.div_mod_to_equations; lia).
  destruct ((1 <=? d) && (d <=? daysIn leap m)) eqn:V.
  - destruct (monthAndDay leap (dayOfYear leap m d)) as [m' d'].
    rewrite !andb_true_iff, Z.leb_le, Z.ltb_lt, !Z.eqb_eq in Hok.
    destruct Hok as [[? ?] [-> ->]]. split; [lia | reflexivity].
  - rewrite andb_false_iff, !Z.leb_gt in V. lia.
Qed.

Lemma yearAndDay_unique y yd :
  0 <= yd < yearLength y -> yearAndDay (daysSinceEpoch y + yd) = (y, yd).
Proof.
  intros Hyd.
  pose proof (yearAndDay_spec (daysSinceEpoch y + yd)) as S.
  destruct (yearAndDay (daysSinceEpoch y + yd)) as [y' yd'].
  destruct S as [Hsum Hr].
  assert (y' = y) as ->.
  { destruct (Z.lt_trichotomy y' y) as [L | [E | G]]; [exfalso | exact E | exfalso].
    - pose proof (daysSinceEpoch_mono (y' + 1) y ltac:(lia)).
      rewrite daysSinceEpoch_succ in *. lia.
    - pose proof (daysSinceEpoch_mono (y + 1) y' ltac:(lia)).
      rewrite daysSinceEpoch_succ in *. lia. }
  f_equal. lia.
Qed.

(** [absDate] yields a valid date whose day number is that of the
    instant. *)
Lemma absDate_spec a y m d :
  absDate a = (y, m, d) ->
  validDate y m d /\ dayNumber y m d = a / secondsPerDay.
Proof.
  rewrite absDate_split.
  pose proof (yearAndDay_spec (a / secondsPerDay)) as Y.
  destruct (yearAndDay (a / secondsPerDay)) as [y' yd]. destruct Y as [Hsum Hr].
  pose proof (monthAndDay_spec (isLeap y') yd) as M.
  unfold yearLength in Hr. specialize (M Hr).
  destruct (monthAndDay (isLeap y') yd) as [m' d'].
  intros [= <- <- <-]. unfold validDate, dayNumber. 
  destruct M as (? & ? & ->). auto.
Qed.

(** and it is the only such date. *)
Lemma absDate_dayNumber y m d a :
  validDate y m d -> a / secondsPerDay = dayNumber y m d ->
  absDate a = (y, m, d).
Proof.
  intros [Hm Hd] Ha. rewrite absDate_split, Ha. unfold dayNumber.
  destruct (dayOfYear_spec (isLeap y) m d Hm Hd) as [Hr Hinv].
  rewrite yearAndDay_unique by (unfold yearLength; exact Hr).
  rewrite Hinv. reflexivity.
Qed.

Lemma dayOfYear_next (leap : bool) (m : Z) :
  1 <= m < 12 ->
  dayOfYear leap (m + 1) 1 = dayOfYear leap m (daysIn leap m) + 1.
Proof.
  intros Hm.
  assert (m = 1 \/ m = 2 \/ m = 3 \/ m = 4 \/ m = 5 \/ m = 6 \/ m = 7 \/ m = 8
          \/ m = 9 \/ m = 10 \/ m = 11) as C by lia.
  destruct leap; repeat (destruct C as [-> | C]); try subst m; reflexivity.
Qed.

Lemma dayOfYear_december (leap : bool) :
  dayOfYear leap 12 (daysIn leap 12) + 1 = (if leap then 366 else 365).
Proof. destruct leap; reflexivity. Qed.

Lemma dayOfYear_january (leap : bool) : dayOfYear leap 1 1 = 0.
Proof. destruct leap; reflexivity. Qed.

(** The first day of the following month comes right after the last day
    of the month. *)
Lemma dayNumber_following y m :
  1 <= m <= 12 ->
  let '(y', m') := followingMonth y m in
  1 <= m' <= 12 /\ dayNumber y' m' 1 = dayNumber y m (daysIn (isLeap y) m) + 1.
Proof.
  intros Hm. unfold followingMonth, December, January.
  destruct (m =? 12) eqn:E.
  - apply Z.eqb_eq in E. subst m. split; [lia|].
    unfold dayNumber. rewrite daysSinceEpoch_succ, dayOfYear_january.
    pose proof (dayOfYear_december (isLeap y)). unfold yearLength. lia.
  - apply Z.eqb_neq in E. split; [lia|].
    unfold dayNumber. rewrite dayOfYear_next by lia. lia.
Qed.

Lemma dayNumber_day y m d1 d2 : dayNumber y m d2 = dayNumber y m d1 + (d2 - d1).
Proof. unfold dayNumber, dayOfYear. lia. Qed.

Lemma Year_Month_absDate t y m :
  Year t = y /\ Month t = m <-> exists d, absDate (abs t) = (y, m, d).
Proof.
  unfold Year, Month. destruct (absDate (abs t)) as [[y' m'] d']. cbn. split.
  - intros [-> ->]. eauto.
  - intros [d [= -> -> _]]. auto.
Qed.

Lemma unixNano_first y m (l : Location) :
  1 <= m <= 12 ->
  unixNano (Date y m 1 0 0 0 0 l)
  = (dayNumber y m 1 * secondsPerDay - unixToAbsolute
     - dateOffset l (dayNumber y m 1 * secondsPerDay - unixToAbsolute)) * Second.
Proof.
  intros Hm. unfold Date. cbv zeta. cbn [unixNano].
  change (0 / Second) with 0. change (0 mod Second) with 0.
  replace ((m - 1) / 12) with 0 by (Z.div_mod_to_equations; lia).
  replace ((m - 1) mod 12) with (m - 1) by (Z.div_mod_to_equations; lia).
  replace (m - 1 + 1) with m by lia. replace (y + 0) with y by lia.
  assert (E : (if isLeap y && (March <=? m)
               then daysSinceEpoch y + daysBefore (m - 1) + 1
               else daysSinceEpoch y + daysBefore (m - 1)) + (1 - 1)
              = dayNumber y m 1).
  { unfold dayNumber, dayOfYear. destruct (isLeap y && (March <=? m)); lia. }
  rewrite E. replace (dayNumber y m 1 * secondsPerDay + 0 * 3600 + 0 * 60 + (0 + 0))
    with (dayNumber y m 1 * secondsPerDay) by lia.
  lia.
Qed.

Lemma abs_day_le (t : Time) (n : Z) :
  abs t / secondsPerDay <= n - 1 <->
  unixNano t < (n * secondsPerDay - unixToAbsolute - zoneOffset t) * Second.
Proof.
  unfold abs, Unix. generalize (zoneOffset t). intros o.
  unfold secondsPerDay, Second, unixToAbsolute.
  Z.div_mod_to_equations. lia.
Qed.

Lemma abs_day_ge (t : Time) (n : Z) :
  n <= abs t / secondsPerDay <->
  (n * secondsPerDay - unixToAbsolute - zoneOffset t) * Second <= unixNano t.
Proof.
  unfold abs, Unix. generalize (zoneOffset t). intros o.
  unfold secondsPerDay, Second, unixToAbsolute.
  Z.div_mod_to_equations. lia.
Qed.

Lemma second_before (x : Z) :
  (x * Second - 1) / Second = x - 1 /\ (x * Second - 1) mod Second = 999999999.
Proof.
  unfold Second. split.
  - symmetry. apply (Z.div_unique _ _ _ 999999999); lia.
  - symmetry. apply (Z.mod_unique _ _ (x - 1)); lia.
Qed.

Lemma Month_bounds (t : Time) : 1 <= Month t <= 12.
Proof.
  destruct (proj1 (Year_Month_absDate t _ _) (conj eq_refl eq_refl)) as [d Ht].
  destruct (absDate_spec _ _ _ _ Ht) as [[Hm _] _]. exact Hm.
Qed.

(** The expiry of a flush: one nanosecond before the midnight that begins
    the following month, moved to UTC by the offset that [Date] finds for
    that midnight. *)
Lemma endOfThisMonth_unixNano now :
  unixNano (endOfThisMonth now)
  = (nextMonthMidnight now - dateOffset (loc now) (nextMonthMidnight now)) * Second - 1
  /\ loc (endOfThisMonth now) = loc now.
Proof.
  pose proof (Month_bounds now) as Hm.
  unfold endOfThisMonth, nextMonthMidnight, followingMonth, December, January, Nanosecond.
  destruct (Month now =? 12) eqn:E.
  - apply Z.eqb_eq in E. rewrite E.
    replace (12 <? 12 + 1) with true by reflexivity.
    cbv beta iota zeta. unfold Add. cbn [unixNano loc].
    rewrite unixNano_first by lia. split; [lia | reflexivity].
  - apply Z.eqb_neq in E.
    destruct (12 <? Month now + 1) eqn:L; [apply Z.ltb_lt in L; lia |].
    cbv beta iota zeta. unfold Add. cbn [unixNano loc]. rewrite unixNano_first by lia.
    split; [lia | reflexivity].
Qed.

(** Away from a change of the clocks, [Date] uses the offset of the zone
    of the reading. *)
Lemma settled_dateOffset (l : Location) (unix : Z) :
  settled l unix -> dateOffset l unix = (lookup l unix).1.1.
Proof.
  unfold settled, dateOffset. destruct (lookup l unix) as [[o s] e]. cbn [fst].
  intros [H1 _]. destruct (Z.eqb_spec o 0) as [-> | N]; [reflexivity |].
  destruct ((unix - o <? s) || (e <=? unix - o)); [exact H1 | reflexivity].
Qed.

Lemma loc_Add (t : Time) (d : Z) : loc (Add t d) = loc t.
Proof. reflexivity. Qed.

Lemma unixNano_Add (t : Time) (d : Z) : unixNano (Add t d) = unixNano t + d.
Proof. reflexivity. Qed.

(** An instant one nanosecond before the clock reading of the midnight
    that begins the month [(y', m')] after [(y, m)], read with the offset
    [o] on both sides of that midnight. *)
Lemma before_midnight_is_final_instant (y m y' m' o : Z) (E : Time) :
  1 <= m <= 12 ->
  followingMonth y m = (y', m') ->
  unixNano E = (dayNumber y' m' 1 * secondsPerDay - unixToAbsolute - o) * Second - 1 ->
  zoneOffset E = o ->
  zoneOffset (Add E Nanosecond) = o ->
  finalInstantOfMonth y m E
  /\ lastNanosecondOfMonth y m E
  /\ firstInstantOfMonth y' m' (Add E Nanosecond)
  /\ firstNanosecondOfMonth y' m' (Add E Nanosecond).
Proof.
  intros Hm Hfol HEn ZE ZB.
  pose proof (dayNumber_following y m Hm) as HF. rewrite Hfol in HF.
  destruct HF as [Hm' HF].
  remember (dayNumber y' m' 1) as n' eqn:Hn'.
  assert (UE : Unix E = n' * secondsPerDay - unixToAbsolute - o - 1).
  { unfold Unix. rewrite HEn. apply second_before. }
  assert (UB : Unix (Add E Nanosecond) = n' * secondsPerDay - unixToAbsolute - o).
  { unfold Unix. rewrite unixNano_Add, HEn. unfold Nanosecond.
    rewrite Z.sub_add. apply Z.div_mul. discriminate. }
  assert (AE : abs E = n' * secondsPerDay - 1) by (unfold abs; rewrite UE, ZE; lia).
  assert (AB : abs (Add E Nanosecond) = n' * secondsPerDay)
    by (unfold abs; rewrite UB, ZB; lia).
  assert (DE : absDate (abs E) = (y, m, daysIn (isLeap y) m)).
  { apply absDate_dayNumber.
    - split; [exact Hm |]. unfold daysIn. repeat case_match; lia.
    - rewrite AE, HF.
      symmetry. apply (Z.div_unique _ _ _ 86399); unfold secondsPerDay; lia. }
  assert (DB : absDate (abs (Add E Nanosecond)) = (y', m', 1)).
  { apply absDate_dayNumber.
    - split; [exact Hm' |]. unfold daysIn. repeat case_match; lia.
    - rewrite AB, <- Hn'. apply Z.div_mul. discriminate. }
  split; [| split; [| split]].
  - split; [apply Year_Month_absDate; eauto |].
    intros t _ Hz Ht. apply Year_Month_absDate in Ht as [dt Ht].
    destruct (absDate_spec _ _ _ _ Ht) as [[_ Hdt] Hdayt].
    assert (Hle : abs t / secondsPerDay <= n' - 1).
    { rewrite <- Hdayt, HF, (dayNumber_day _ _ dt (daysIn _ _)). lia. }
    apply abs_day_le in Hle. rewrite Hz, ZE in Hle. lia.
  - unfold lastNanosecondOfMonth, Year, Month, Day. rewrite DE.
    do 3 (split; [reflexivity |]). split.
    + unfold Clock. rewrite AE.
      replace ((n' * secondsPerDay - 1) mod secondsPerDay) with 86399; [reflexivity |].
      apply (Z.mod_unique _ _ (n' - 1)); unfold secondsPerDay; lia.
    + unfold nsec. rewrite HEn. apply second_before.
  - split; [apply Year_Month_absDate; eauto |].
    intros t _ Hz Ht. apply Year_Month_absDate in Ht as [dt Ht].
    destruct (absDate_spec _ _ _ _ Ht) as [[_ Hdt] Hdayt].
    assert (Hge : n' <= abs t / secondsPerDay).
    { rewrite <- Hdayt, Hn'. rewrite (dayNumber_day _ _ 1 dt). lia. }
    apply abs_day_ge in Hge. rewrite Hz, ZB in Hge.
    rewrite unixNano_Add. unfold Nanosecond. lia.
  - unfold firstNanosecondOfMonth, Year, Month, Day. rewrite DB.
    do 3 (split; [reflexivity |]). split.
    + unfold Clock. rewrite AB, Z.mod_mul by discriminate. reflexivity.
    + unfold nsec. rewrite unixNano_Add, HEn. unfold Nanosecond. rewrite Z.sub_add.
      apply Z.mod_mul. discriminate.
Qed.

Lemma nextMonthMidnight_following now y' m' :
  followingMonth (Year now) (Month now) = (y', m') ->
  nextMonthMidnight now = dayNumber y' m' 1 * secondsPerDay - unixToAbsolute.
Proof. intros E. unfold nextMonthMidnight. rewrite E. reflexivity. Qed.

(** The expiry of a flush is read with the offset that [Date] found, on
    both sides of the midnight, when the location meets that midnight
    away from a change of its clocks. *)
Lemma endOfThisMonth_zoneOffset now :
  settled (loc now) (nextMonthMidnight now) ->
  dateOffset (loc now) (nextMonthMidnight now)
  = (lookup (loc now) (nextMonthMidnight now)).1.1
  /\ zoneOffset (endOfThisMonth now)
     = (lookup (loc now) (nextMonthMidnight now)).1.1
  /\ zoneOffset (Add (endOfThisMonth now) Nanosecond)
     = (lookup (loc now) (nextMonthMidnight now)).1.1.
Proof.
  intros HS. pose proof (settled_dateOffset _ _ HS) as HO.
  destruct (endOfThisMonth_unixNano now) as [HEn HEl]. rewrite HO in HEn.
  destruct HS as [HS0 HS1]. split; [exact HO |].
  unfold zoneOffset, Unix. rewrite loc_Add, unixNano_Add, HEl, HEn.
  unfold Nanosecond.
  rewrite (proj1 (second_before _)), Z.sub_add, Z.div_mul by discriminate.
  split; [exact HS1 | exact HS0].
Qed.

(** What [submit] computes before its loop, for a month whose end the
    location meets away from a change of its clocks: the clock shows the
    last nanosecond of the month of [now], and one nanosecond later the
    first one of the following month. *)
Lemma endOfThisMonth_is_final_instant now y' m' :
  followingMonth (Year now) (Month now) = (y', m') ->
  settled (loc now) (nextMonthMidnight now) ->
  finalInstantOfMonth (Year now) (Month now) (endOfThisMonth now)
  /\ lastNanosecondOfMonth (Year now) (Month now) (endOfThisMonth now)
  /\ firstInstantOfMonth y' m' (Add (endOfThisMonth now) Nanosecond)
  /\ firstNanosecondOfMonth y' m' (Add (endOfThisMonth now) Nanosecond).
Proof.
  intros Hfol HS.
  destruct (endOfThisMonth_zoneOffset now HS) as (HO & ZE & ZB).
  destruct (endOfThisMonth_unixNano now) as [HEn _]. rewrite HO in HEn.
  rewrite (nextMonthMidnight_following now y' m' Hfol) in HEn, ZE, ZB.
  exact (before_midnight_is_final_instant _ _ _ _ _ _ (Month_bounds now) Hfol HEn ZE ZB).
Qed.

(** In whole seconds the expiry is 999999999 nanoseconds short. *)
Lemma endOfThisMonth_Unix now :
  Unix (endOfThisMonth now) * Second = unixNano (endOfThisMonth now) - 999999999.
Proof.
  unfold Unix. destruct (endOfThisMonth_unixNano now) as [-> _].
  rewrite (proj1 (second_before _)). unfold Second. lia.
Qed.

End Calendar.

(** ** redis: the flush *)

Section Flush.

Import measured redis.

Lemma clientKey_inj (a b : string) : clientKey a = clientKey b -> a = b.
Proof. unfold clientKey. cbn. intros [= E]. exact E. Qed.

(** The commands of a transaction leave a hash where there was one, and
    leave no hash only where there was none and no increment took
    effect. *)
Lemma run_None (todo : Applied) (h : option ClientHash) (recv sent : Z)
    (e : time.Time) :
  run todo h recv sent e = None -> h = None.
Proof.
  unfold run, HIncrByIn, HIncrByOut, ExpireAt.
  destruct (incrBytesIn todo), (incrBytesOut todo), (expire todo), h; cbn;
    congruence.
Qed.

(** The expiry of a transaction, once on a key, stays on it through every
    transaction with the same expiry, failing or not. *)
Lemma run_keeps_expiry (todo : Applied) (h : ClientHash) (recv sent : Z)
    (e : time.Time) :
  expireAt h = Some (time.Unix e) ->
  exists h', run todo (Some h) recv sent e = Some h'
             /\ expireAt h' = Some (time.Unix e).
Proof.
  intros He. unfold run, HIncrByIn, HIncrByOut, ExpireAt.
  destruct (incrBytesIn todo), (incrBytesOut todo), (expire todo); cbn;
    eexists; (split; [reflexivity | cbn; auto]).
Qed.

(** A transaction that succeeds. *)
Lemma Exec_ok (rc : Client) (k : string) (recv sent : Z) (e : time.Time) :
  failing rc k = false ->
  let h := default emptyHash (hashes rc !! k) in
  let h' := {| bytesIn := bytesIn h + recv; bytesOut := bytesOut h + sent;
               expireAt := Some (time.Unix e) |} in
  Exec rc k recv sent e
  = ({| hashes := <[k := h']> (hashes rc); failing := failing rc;
        applied := applied rc |},
     inl (bytesIn h', bytesOut h')).
Proof. intros F. unfold Exec. rewrite F. reflexivity. Qed.

(** A transaction that fails: the error, and under the key of the
    transaction what the commands that took effect made of it; no other
    key changes. *)
Lemma Exec_fail (rc : Client) (k : string) (recv sent : Z) (e : time.Time) :
  failing rc k = true ->
  exists rc',
    Exec rc k recv sent e = (rc', inr "redis: transaction failed")
    /\ failing rc' = failing rc
    /\ applied rc' = applied rc
    /\ hashes rc' !! k = run (applied rc k) (hashes rc !! k) recv sent e
    /\ (forall k', k' <> k -> hashes rc' !! k' = hashes rc !! k').
Proof.
  intros F. unfold Exec. rewrite F. eexists. split; [reflexivity |].
  cbn [failing applied hashes]. split; [reflexivity |]. split; [reflexivity |].
  destruct (run (applied rc k) (hashes rc !! k) recv sent e) as [h |] eqn:R.
  - split; [apply lookup_insert_eq |]. intros k' N. apply lookup_insert_ne. congruence.
  - split; [exact (run_None _ _ _ _ _ R) | reflexivity].
Qed.

(** Every transaction keeps the keys that fail and what they leave, and
    touches its own key only. *)
Lemma Exec_frame (rc : Client) (k : string) (recv sent : Z) (e : time.Time) :
  failing (Exec rc k recv sent e).1 = failing rc
  /\ applied (Exec rc k recv sent e).1 = applied rc
  /\ (forall k', k' <> k ->
        hashes (Exec rc k recv sent e).1 !! k' = hashes rc !! k').
Proof.
  destruct (failing rc k) eqn:F.
  - destruct (Exec_fail rc k recv sent e F) as (rc' & -> & Hf & Ha & _ & Ho). auto.
  - rewrite (Exec_ok rc k recv sent e F). cbn. split; [reflexivity |].
    split; [reflexivity |]. intros k' N. apply lookup_insert_ne. congruence.
Qed.

Lemma submitEach_cons (rc : Client) (now e : time.Time) (d : string) (s : Stats)
    (rest : list (string * Stats)) :
  submitEach rc now e ((d, s) :: rest)
  = match Exec rc (clientKey d) (goint.wrap_int64 (RecvTotal s))
            (goint.wrap_int64 (SentTotal s)) e with
    | (rc', inr merr) => (rc', [Attempt d], Some merr)
    | (rc', inl (bytesIn, bytesOut)) =>
        let total := goint.wrap_uint64 (goint.wrap_int64 (bytesIn + bytesOut)) in
        let '(rc'', evs, err) := submitEach rc' now e rest in
        (rc'', Attempt d :: UsageSet d total now :: evs, err)
    end.
Proof.
  cbn [submitEach]. destruct (Exec _ _ _ _ _) as [rc1 [[a b] | merr]]; reflexivity.
Qed.

(** The pass over a list of entries of which the first failing one is
    [d]: every entry before [d] is attempted and reported, [d] is
    attempted, nothing after [d] is, and the error is handed back; the
    keys of other devices are not touched. *)
Lemma submitEach_stops (now e : time.Time) (pre post : list (string * Stats))
    (d : string) (s : Stats) :
  forall rc,
    (forall x, In x pre -> failing rc (clientKey x.1) = false) ->
    failing rc (clientKey d) = true ->
    exists rc' evs,
      submitEach rc now e (pre ++ (d, s) :: post)%list
      = (rc', evs, Some "redis: transaction failed")
      /\ attempts evs = (pre.*1 ++ [d])%list
      /\ flushed evs = pre.*1
      /\ (forall k, ~ In k (map clientKey (pre.*1 ++ [d])%list) ->
            hashes rc' !! k = hashes rc !! k).
Proof.
  induction pre as [| [d0 s0] pre IH]; intros rc Hpre Hd.
  - rewrite app_nil_l, submitEach_cons.
    destruct (Exec_fail rc (clientKey d) (goint.wrap_int64 (RecvTotal s))
                (goint.wrap_int64 (SentTotal s)) e Hd) as (rc' & -> & _ & _ & _ & Ho).
    exists rc', [Attempt d].
    split; [reflexivity |]. split; [reflexivity |]. split; [reflexivity |].
    intros k Hk. apply Ho. intros ->. apply Hk. left. reflexivity.
  - rewrite <- app_comm_cons, submitEach_cons.
    assert (H0 : failing rc (clientKey d0) = false)
      by (apply (Hpre (d0, s0)); left; reflexivity).
    pose proof (Exec_frame rc (clientKey d0) (goint.wrap_int64 (RecvTotal s0))
                  (goint.wrap_int64 (SentTotal s0)) e) as (Hf & _ & Hother).
    rewrite (Exec_ok rc _ _ _ e H0) in Hf, Hother |- *. cbv zeta in Hf, Hother |- *.
    match goal with
    | |- context [submitEach ?r now e _] => set (rc1 := r) in *
    end.
    destruct (IH rc1) as (rc' & evs & HS & HA & HF & HK).
    { intros x Hx. cbn [fst] in Hf. rewrite Hf. apply Hpre. right. exact Hx. }
    { cbn [fst] in Hf. rewrite Hf. exact Hd. }
    rewrite HS. eexists rc', _.
    split; [reflexivity |].
    split; [change (d0 :: attempts evs = d0 :: (pre.*1 ++ [d])%list); f_equal; exact HA |].
    split; [change (d0 :: flushed evs = d0 :: pre.*1); f_equal; exact HF |].
    intros k Hk.
    assert (Hk1 : k <> clientKey d0) by (intros ->; apply Hk; left; reflexivity).
    assert (Hk2 : ~ In k (map clientKey (pre.*1 ++ [d])%list))
      by (intros I; apply Hk; right; exact I).
    rewrite (HK k Hk2). apply Hother. exact Hk1.
Qed.

(** C3 — on a tick the map is empty afterwards, whatever the writes did;
    and when the write for device [d] fails, the devices that [range] had
    still to yield are not attempted and the error is logged: the totals
    those devices had in the map are neither written nor kept. *)
Theorem C3_flush_aborts_on_first_error (st st' : State) (now : time.Time)
    (entries : list (string * Stats)) :
  step st (Tick now entries) st' ->
  statsByDeviceID st' = ∅
  /\ forall pre d s post,
       entries = (pre ++ (d, s) :: post)%list ->
       (forall x, In x pre -> failing (rc st) (clientKey x.1) = false) ->
       failing (rc st) (clientKey d) = true ->
       exists evs,
         seen st'
         = (seen st ++ evs
            ++ [LogError "Unable to submit stats: redis: transaction failed"])%list
         /\ attempts evs = (pre.*1 ++ [d])%list
         /\ forall x, In x post ->
              statsByDeviceID st !! x.1 = Some x.2
              /\ ~ In x.1 (attempts evs)
              /\ hashes (rc st') !! clientKey x.1 = hashes (rc st) !! clientKey x.1.
Proof.
  intros Hstep. inversion Hstep as [| st0 now0 entries0 Hperm]; subst.
  split; [unfold onTick; destruct (submit _ _ _) as [[? ?] ?]; reflexivity |].
  intros pre d s post -> Hpre Hd.
  destruct (submitEach_stops now (endOfThisMonth now) pre post d s (rc st) Hpre Hd)
    as (rc' & evs & HS & HA & _ & HK).
  unfold onTick, submit. rewrite HS. cbn [seen statsByDeviceID rc].
  exists evs. split; [reflexivity |]. split; [exact HA |].
  assert (ND : NoDup ((pre ++ (d, s) :: post)%list).*1).
  { rewrite Hperm. apply NoDup_fst_map_to_list. }
  rewrite fmap_app, fmap_cons in ND. cbn [fst] in ND.
  apply NoDup_app in ND as (_ & Hdisj & ND2).
  apply NoDup_cons in ND2 as [Hdpost _].
  intros x Hx.
  assert (Hx1 : x.1 ∈ post.*1).
  { apply list_elem_of_fmap. exists x. split; [reflexivity |]. apply list_elem_of_In, Hx. }
  assert (Hnot : ~ In x.1 (pre.*1 ++ [d])%list).
  { intros I. apply in_app_or in I as [I | [I | []]].
    - apply (Hdisj x.1); [apply list_elem_of_In, I | right; exact Hx1].
    - apply Hdpost. rewrite I. exact Hx1. }
  split; [| split].
  - apply elem_of_map_to_list. rewrite <- Hperm, <- surjective_pairing.
    apply list_elem_of_In, in_or_app. right. right. exact Hx.
  - rewrite HA. exact Hnot.
  - apply HK. intros I. apply in_map_iff in I as (y & Hy & I).
    apply clientKey_inj in Hy. subst y. exact (Hnot I).
Qed.

(** A run of the loop that ends with a tick ends with an empty map. *)
Lemma reportPeriodically_tick_resets (st st' : State) (signals : list Signal)
    (now : time.Time) (entries : list (string * Stats)) :
  reportPeriodically st (signals ++ [Tick now entries])%list st' ->
  statsByDeviceID st' = ∅.
Proof.
  revert st. induction signals as [| sig signals IH]; intros st Hrun.
  - inversion Hrun as [| ? ? st1 ? ? Hstep Hrest]; subst.
    inversion Hrest; subst.
    inversion Hstep; subst. unfold onTick.
    destruct (submit _ _ _) as [[? ?] ?]. reflexivity.
  - inversion Hrun as [| ? ? st1 ? ? Hstep Hrest]; subst. exact (IH _ Hrest).
Qed.

(** Every device reported in a pass has, after the pass, the expiry of
    the pass on its key, in whole seconds. *)
Lemma submitEach_expiry (now e : time.Time) (entries : list (string * Stats)) :
  forall rc rc' evs err,
    submitEach rc now e entries = (rc', evs, err) ->
    (forall k h, hashes rc !! k = Some h -> expireAt h = Some (time.Unix e) ->
       exists h', hashes rc' !! k = Some h' /\ expireAt h' = Some (time.Unix e))
    /\ (forall d, In d (flushed evs) ->
          exists h, hashes rc' !! clientKey d = Some h
                    /\ expireAt h = Some (time.Unix e)).
Proof.
  induction entries as [| [d0 s0] rest IH]; intros rc rc' evs err.
  - intros [= <- <- <-]. split; [eauto | intros d []].
  - rewrite submitEach_cons.
    assert (Hkeep1 : forall k h, hashes rc !! k = Some h ->
              expireAt h = Some (time.Unix e) ->
              exists h', hashes (Exec rc (clientKey d0)
                                   (goint.wrap_int64 (RecvTotal s0))
                                   (goint.wrap_int64 (SentTotal s0)) e).1 !! k = Some h'
                         /\ expireAt h' = Some (time.Unix e)).
    { intros k h Hk Hh. destruct (decide (k = clientKey d0)) as [-> | N].
      - destruct (failing rc (clientKey d0)) eqn:F.
        + destruct (Exec_fail rc (clientKey d0) (goint.wrap_int64 (RecvTotal s0))
                      (goint.wrap_int64 (SentTotal s0)) e F)
            as (rc1 & -> & _ & _ & Hown & _).
          cbn [fst]. rewrite Hown, Hk. apply run_keeps_expiry, Hh.
        + rewrite (Exec_ok rc _ _ _ e F). cbn. rewrite lookup_insert_eq. eauto.
      - rewrite (proj2 (proj2 (Exec_frame rc (clientKey d0) _ _ e)) k N). eauto. }
    destruct (failing rc (clientKey d0)) eqn:F.
    + destruct (Exec_fail rc (clientKey d0) (goint.wrap_int64 (RecvTotal s0))
                  (goint.wrap_int64 (SentTotal s0)) e F) as (rc1 & HE & _).
      rewrite HE in Hkeep1 |- *. cbn [fst] in Hkeep1.
      intros [= <- <- <-]. split; [exact Hkeep1 | intros d []].
    + rewrite (Exec_ok rc _ _ _ e F) in Hkeep1 |- *. cbv zeta in Hkeep1 |- *.
      cbn [fst] in Hkeep1.
      match goal with
      | |- context [submitEach ?r now e rest] => set (rc1 := r) in *
      end.
      destruct (submitEach rc1 now e rest) as [[rc2 evs2] err2] eqn:HS.
      intros [= <- <- <-].
      destruct (IH _ _ _ _ HS) as [Hkeep Hfl].
      split.
      * intros k h Hk Hh. destruct (Hkeep1 k h Hk Hh) as (h' & Hk' & Hh'). eauto.
      * cbn [flushed]. intros d [<- | I]; [| eauto].
        apply (Hkeep (clientKey d0) _ (lookup_insert_eq _ _ _)). reflexivity.
Qed.

End Flush.

Section Expiry.

Import measured redis.


End Expiry.

Section FlushExamples.

Import measured redis example_flush.

Lemma pending_order :
  [("a", totals 10 20); ("b", totals 1 2); ("c", totals 5 5)]
  ≡ₚ map_to_list pending.
Proof.
  unfold pending.
  rewrite !map_to_list_insert by (vm_compute; reflexivity).
  rewrite map_to_list_singleton. reflexivity.
Qed.

(** C3 at work: "b" is refused, "c" comes after "b". *)
Lemma C3_flush_aborts_on_first_error_witness :
  let st := state refuse_b in
  let entries := [("a", totals 10 20); ("b", totals 1 2); ("c", totals 5 5)] in
  let st' := onTick st noon entries in
  step st (Tick noon entries) st'
  /\ failing (rc st) (clientKey "b") = true
  /\ statsByDeviceID st !! "c" = Some (totals 5 5)
  /\ hashes (rc st') !! clientKey "c" = None
  /\ statsByDeviceID st' = ∅.
Proof.
  intros st entries st'.
  assert (Hstep : step st (Tick noon entries) st') by (apply step_tick, pending_order).
  assert (Hb : failing (rc st) (clientKey "b") = true) by reflexivity.
  destruct (C3_flush_aborts_on_first_error st st' noon entries Hstep)
    as (Hempty & Habort).
  destruct (Habort [("a", totals 10 20)] "b" (totals 1 2) [("c", totals 5 5)] eq_refl)
    as (evs & _ & _ & Hpost).
  { intros x [<- | []]. reflexivity. }
  { exact Hb. }
  destruct (Hpost ("c", totals 5 5)) as (Hc & _ & Hstore); [left; reflexivity |].
  split; [exact Hstep |]. split; [exact Hb |]. split; [exact Hc |].
  split; [transitivity (hashes (rc st) !! clientKey "c"); [exact Hstore | reflexivity]
         | exact Hempty].
Defined.

Lemma flushed_a (now : time.Time) :
  In "a" (flushed (submit (store refuse_none) now [("a", totals 10 20)]).1.2).
Proof. left. reflexivity. Qed.



End FlushExamples.

(** * Further properties of the code *)

(** ** versioncheck *)

Section CheckerMore.

Import http filters versioncheck.
Context `{Lib}.

(** X1 — [New] fails exactly when the URL or the range does not parse, the
    error of the URL first; the percentage never makes it fail.  On
    success the checker keeps the URL string as given, and checks port 80
    when no port was listed. *)
Theorem New_fails_on_url_then_range (vr u : string) (ports : list string)
    (percentage : float64.t) :
  match url_Parse u, semver_ParseRange vr with
  | inr e, _ => New vr u ports percentage = inr e
  | inl _, inr e => New vr u ports percentage = inr e
  | inl parsed, inl range =>
      exists c, New vr u ports percentage = inl c
                /\ rewriteURL c = parsed
                /\ versionRange c = range
                /\ rewriteURLString c = u
                /\ tunnelPorts c = match ports with [] => ["80"] | _ => ports end
  end.
Proof.
  unfold New. destruct (url_Parse u) as [parsed | e]; [| reflexivity].
  destruct (semver_ParseRange vr) as [range | e]; [| reflexivity].
  eexists. split; [reflexivity |]. cbn. auto.
Qed.

(** The redirect decision of [Apply]. *)
Lemma Apply_not_redirected (c : VersionChecker) (conn : Conn) (req : Request)
    (draw : Z) (next : Next) :
  (Method req = MethodConnect -> shouldRedirectOnConnect c req draw = false) ->
  (Method req = MethodGet -> shouldRedirect c req draw = false) ->
  Apply c conn req draw next
  = {| result := next req;
       requestAfter := DelHeader req common.VersionHeader;
       trace := [EvNext req] |}.
Proof.
  intros HC HG. unfold Apply.
  destruct (String.eqb_spec (Method req) MethodConnect) as [EC | NC].
  - rewrite (HC EC). reflexivity.
  - destruct (String.eqb_spec (Method req) MethodGet) as [EG | NG].
    + rewrite (HG EG). reflexivity.
    + reflexivity.
Qed.

(** X2 — a request whose method is neither GET nor CONNECT is handed to
    the rest of the chain as it came, whatever its version, its target
    and the draw; the answer of the chain is passed back. *)
Theorem Apply_other_methods_continue (c : VersionChecker) (conn : Conn)
    (req : Request) (draw : Z) (next : Next) :
  Method req <> MethodGet ->
  Method req <> MethodConnect ->
  Apply c conn req draw next
  = {| result := next req;
       requestAfter := DelHeader req common.VersionHeader;
       trace := [EvNext req] |}.
Proof.
  intros NG NC. apply Apply_not_redirected; intros E; contradiction.
Qed.

Lemma redirect_no_next (c : VersionChecker) (r : option Request) (x : Request) :
  ~ In (EvNext x) (redirect c r).2.
Proof. destruct r; cbn; intuition discriminate. Qed.

Lemma redirectOnConnect_no_next (c : VersionChecker) (conn : Conn)
    (req x : Request) :
  ~ In (EvNext x) (redirectOnConnect c conn req).2.
Proof.
  unfold redirectOnConnect, ReadRequest.
  destruct (writeErr conn); [cbn; tauto |].
  destruct (tunneled conn) as [r | e]; cbn.
  - destruct (Body r); cbn; intuition discriminate.
  - intuition discriminate.
Qed.

(** X3 — in every path of [Apply] the rest of the chain is called at most
    once, with the request as it came, and what it returns is then what
    [Apply] returns; it is never called when the request is redirected. *)
Theorem Apply_next_at_most_once (c : VersionChecker) (conn : Conn)
    (req : Request) (draw : Z) (next : Next) :
  let out := Apply c conn req draw next in
  (trace out = [EvNext req] /\ result out = next req)
  \/ (forall x, ~ In (EvNext x) (trace out)).
Proof.
  cbv zeta. unfold Apply.
  destruct (String.eqb (Method req) MethodConnect).
  - destruct (shouldRedirectOnConnect c req draw); [| left; split; reflexivity].
    right. intros x. pose proof (redirectOnConnect_no_next c conn req x) as N.
    destruct (redirectOnConnect c conn req). exact N.
  - destruct (String.eqb (Method req) MethodGet); [| left; split; reflexivity].
    destruct (shouldRedirect c req draw); [| left; split; reflexivity].
    right. intros x. pose proof (redirect_no_next c (Some req) x) as N.
    destruct (redirect c (Some req)). exact N.
Qed.

(** X4 — a GET that does not look like a browser's navigation (its Accept
    header does not start with text/html, or its User-Agent does not start
    with Mozilla/) is never redirected, whatever its version and the
    draw. *)
Theorem Apply_get_without_browser_headers (c : VersionChecker) (conn : Conn)
    (req : Request) (draw : Z) (next : Next) :
  Method req = MethodGet ->
  strings.HasPrefix (Get (ReqHeader req) "Accept") "text/html" = false
  \/ strings.HasPrefix (Get (ReqHeader req) "User-Agent") "Mozilla/" = false ->
  Apply c conn req draw next
  = {| result := next req;
       requestAfter := DelHeader req common.VersionHeader;
       trace := [EvNext req] |}.
Proof.
  intros HG Hhdr. apply Apply_not_redirected.
  - intros HC. rewrite HG in HC. discriminate HC.
  - intros _. unfold shouldRedirect. destruct Hhdr as [-> | ->]; cbn.
    + reflexivity.
    + destruct (negb _); reflexivity.
Qed.

(** X5 — a checker built without a list of ports redirects no CONNECT but
    those to port 80: a CONNECT whose target does not split, or splits to
    another port, is handed on, whatever its version and the draw. *)
Theorem Apply_connect_default_port_only (vr u : string) (percentage : float64.t)
    (c : VersionChecker) (conn : Conn) (req : Request) (draw : Z) (next : Next) :
  New vr u [] percentage = inl c ->
  Method req = MethodConnect ->
  match net.SplitHostPort (Host req) with
  | Some (_, port) => port <> "80"
  | None => True
  end ->
  Apply c conn req draw next
  = {| result := next req;
       requestAfter := DelHeader req common.VersionHeader;
       trace := [EvNext req] |}.
Proof.
  intros HN HC Hport.
  assert (P : tunnelPorts c = ["80"]).
  { unfold New in HN. destruct (url_Parse u); [| discriminate].
    destruct (semver_ParseRange vr); [| discriminate].
    injection HN as <-. reflexivity. }
  apply Apply_not_redirected.
  - intros _. unfold shouldRedirectOnConnect.
    destruct (matchVersion c req draw); [| reflexivity]. cbn [negb].
    destruct (net.SplitHostPort (Host req)) as [[h port] |]; [| reflexivity].
    rewrite P. cbn [portMeet]. destruct (String.eqb_spec port "80"); [contradiction | reflexivity].
  - intros HG. rewrite HC in HG. discriminate HG.
Qed.

(** X6 — when the 200 cannot be written on the connection, the hijack
    stops there: the write error is handed back with no response, nothing
    is read or logged, and the rest of the chain is not called. *)
Theorem Apply_connect_write_error (c : VersionChecker) (conn : Conn)
    (req : Request) (draw : Z) (next : Next) (err : string) :
  Method req = MethodConnect ->
  shouldRedirectOnConnect c req draw = true ->
  writeErr conn = Some err ->
  result (Apply c conn req draw next) = Returned None (Some err)
  /\ trace (Apply c conn req draw next) = [].
Proof.
  intros HC HS HW. unfold Apply. rewrite HC, HS.
  replace (MethodConnect =? MethodConnect)%string with true by reflexivity.
  unfold redirectOnConnect. rewrite HW. split; reflexivity.
Qed.

(** X7 — when the 200 is written and a request is read from the tunnel,
    the answer is the 302 to the configured URL string, with the
    connection to be closed, whatever that request is; the 200 is written
    first, and the body of the request is drained exactly when it has
    one. *)
Theorem redirectOnConnect_answers_302 (c : VersionChecker) (conn : Conn)
    (req inner : Request) :
  writeErr conn = None ->
  tunneled conn = inl inner ->
  exists log,
    redirectOnConnect c conn req
    = (Returned (Some (found302 c)) None,
       EvWrite ok200 :: (match Body inner with Some _ => [EvDrain] | None => [] end)
       ++ [EvLogDebug log])
    /\ StatusCode (found302 c) = 302
    /\ RespHeader (found302 c) !! "Location" = Some [rewriteURLString c]
    /\ Close (found302 c) = true.
Proof.
  intros HW HT. unfold redirectOnConnect, ReadRequest. rewrite HW, HT.
  eexists. split; [reflexivity |]. split; [reflexivity |].
  split; [apply lookup_singleton_eq | reflexivity].
Qed.

(** X8 — a request whose [Host] is the host of the rewrite URL is handed
    on in every case: for every method, version and draw. *)
Theorem Apply_to_rewrite_host_continues (c : VersionChecker) (conn : Conn)
    (req : Request) (draw : Z) (next : Next) :
  Host req = url.Host (rewriteURL c) ->
  Apply c conn req draw next
  = {| result := next req;
       requestAfter := DelHeader req common.VersionHeader;
       trace := [EvNext req] |}.
Proof.
  intros E.
  assert (M : matchVersion c req draw = false).
  { unfold matchVersion. rewrite E, String.eqb_refl. reflexivity. }
  apply Apply_not_redirected; intros _.
  - unfold shouldRedirectOnConnect. rewrite M. reflexivity.
  - unfold shouldRedirect. rewrite M.
    repeat match goal with |- context [if ?b then _ else _] => destruct b end;
      reflexivity.
Qed.

(** X9 — when the library rejects the empty string as a version, a client
    that sends no version header (or an empty one) is a candidate like an
    outdated one: only the target and the draw decide. *)
Theorem matchVersion_without_version_header (c : VersionChecker) (req : Request)
    (draw : Z) (e : string) :
  semver_Make "" = inr e ->
  Get (ReqHeader req) common.VersionHeader = "" ->
  matchVersion c req draw
  = negb (String.eqb (Host req) (url.Host (rewriteURL c))) && (draw <? ppm c).
Proof.
  intros HM HV. unfold matchVersion. rewrite HV, HM.
  destruct (String.eqb _ _); [reflexivity |]. cbn [negb andb].
  rewrite Z.ltb_antisym. destruct (ppm c <=? draw); reflexivity.
Qed.

End CheckerMore.

Section Sampling.

Import http filters versioncheck.
Context `{Lib}.

(** Among the first [n] naturals, those below [p] are [min n p] many. *)
Lemma count_below (p : Z) (n : nat) :
  length (List.filter (fun d => d <? p) (map Z.of_nat (seq 0 n)))
  = Z.to_nat (Z.max 0 (Z.min p (Z.of_nat n))).
Proof.
  induction n as [| n IH]; [cbn; lia |].
  rewrite seq_S, map_app, List.filter_app, length_app, IH. cbn [map List.filter plus].
  destruct (Z.ltb_spec (Z.of_nat n) p); cbn [length]; lia.
Qed.

(** X10 — the threshold is a count of draws: for a request that is not
    addressed to the rewrite host and is a candidate, exactly [ppm] of the
    one million possible draws pass the gate (none when [ppm] is
    negative, all when it exceeds one million); for any other request no
    draw passes. *)
Theorem matchVersion_passes_ppm_draws (c : VersionChecker) (req : Request) :
  length (List.filter (matchVersion c req)
            (map Z.of_nat (seq 0 (Z.to_nat oneMillion))))
  = if negb (toRewriteHost c req) && redirectCandidate c req
    then Z.to_nat (Z.max 0 (Z.min (ppm c) oneMillion))
    else 0%nat.
Proof.
  assert (E : forall d, matchVersion c req d
              = negb (toRewriteHost c req) && redirectCandidate c req && (d <? ppm c)).
  { intros d. unfold matchVersion, toRewriteHost, redirectCandidate.
    destruct (String.eqb (Host req) (url.Host (rewriteURL c))); [reflexivity |].
    destruct (semver_Make _) as [v | e]; cbn [negb andb].
    - destruct (versionRange c v); cbn [negb andb]; [| reflexivity].
      rewrite Z.ltb_antisym. destruct (ppm c <=? d); reflexivity.
    - rewrite Z.ltb_antisym. destruct (ppm c <=? d); reflexivity. }
  rewrite (List.filter_ext _ _ E).
  destruct (negb (toRewriteHost c req) && redirectCandidate c req); cbn [andb].
  - rewrite count_below. rewrite Z2Nat.id by (unfold oneMillion; lia). reflexivity.
  - generalize (map Z.of_nat (seq 0 (Z.to_nat oneMillion))).
    intros l. induction l as [| x l IH]; [reflexivity | exact IH].
Qed.

End Sampling.

(** ** versioncheck: the dialer *)

Section DialerFacts.

Import versioncheck dial.
Context `{Lib}.

(** X11 — the dialer leaves a dial as it is whenever the rewrite URL is not
    https, the dial fails, or the address is not the rewrite address: the
    connection and the error of the underlying dial come back unchanged. *)
Theorem Dialer_leaves_other_dials (c : VersionChecker) (d : Dial)
    (network address : string) :
  url.Scheme (rewriteURL c) <> "https"
  \/ (d network address).2 <> None
  \/ address <> rewriteAddr c ->
  Dialer c d network address = d network address.
Proof.
  intros Hcase. unfold Dialer.
  destruct (String.eqb_spec (url.Scheme (rewriteURL c)) "https") as [Es | Ns];
    [| reflexivity].
  cbn [negb]. destruct (d network address) as [conn err] eqn:D.
  destruct err as [e |]; [reflexivity |].
  destruct (String.eqb_spec (rewriteAddr c) address) as [Ea | Na]; [| reflexivity].
  destruct Hcase as [N | [N | N]]; [contradiction | | congruence].
  cbn in N. contradiction.
Qed.

(** X12 — for a checker that [New] builds from an https URL, a successful
    dial to the host of the URL followed by ":443" comes back as a TLS
    client session over the dialed connection, for the host of the URL as
    server name. *)
Theorem Dialer_upgrades_rewrite_address (vr u : string) (ports : list string)
    (percentage : float64.t) (c : VersionChecker) (parsed : url.URL)
    (d : Dial) (network : string) (conn : Conn) :
  url_Parse u = inl parsed ->
  url.Scheme parsed = "https" ->
  New vr u ports percentage = inl c ->
  d network (url.Host parsed ++ ":443") = (conn, None) ->
  Dialer c d network (url.Host parsed ++ ":443")
  = (TLSClient conn (url.Host parsed), None).
Proof.
  intros HP HS HN HD. unfold New in HN. rewrite HP in HN.
  destruct (semver_ParseRange vr); [| discriminate].
  injection HN as <-. unfold Dialer. cbn [rewriteURL rewriteAddr].
  rewrite HS, (String.eqb_refl "https"). cbv beta iota delta [negb].
  rewrite HD, String.eqb_refl. reflexivity.
Qed.

End DialerFacts.

(** ** tokenfilter *)

Section TokenFilterMore.

Import http filters tokenfilter.

(** X13 — the rest of the chain is called in two cases only: with an empty
    secret, on the request as it came (token header included); with a
    secret, when the first value of the token header is not empty and
    some value is the secret, on the request without the token header. *)
Theorem Apply_calls_next_iff (f : tokenFilter) (req : Request) (next : Next)
    (r : Request) :
  In (EvNext r) (trace (Apply f req next))
  <-> (token f = "" /\ r = req)
      \/ (token f <> ""
          /\ (exists first others,
                ReqHeader req !! common.TokenHeader = Some (first :: others)
                /\ first <> "" /\ In (token f) (first :: others))
          /\ r = DelHeader req common.TokenHeader).
Proof.
  unfold Apply.
  destruct (String.eqb_spec (token f) "") as [E | N].
  - cbn [trace In]. split.
    + intros [[= <-] | []]. left. auto.
    + intros [[_ ->] | [C _]]; [left; reflexivity | contradiction].
  - destruct (ReqHeader req !! common.TokenHeader) as [[| first others] |] eqn:Hh.
    + cbn. split; [intuition discriminate |].
      intros [[C _] | (_ & (a & b & [=] & _) & _)]. contradiction.
    + destruct (String.eqb_spec first "") as [E1 | N1].
      * cbn. split; [intuition discriminate |].
        intros [[C _] | (_ & (a & b & [= <- <-] & Na & _) & _)]; contradiction.
      * destruct (tokenMatched (token f) (first :: others)) eqn:M.
        -- cbn [trace In]. split.
           ++ intros [[=] | [[= <-] | []]]. right. split; [exact N |].
              split; [| reflexivity]. exists first, others.
              split; [reflexivity |]. split; [exact N1 |].
              exact (proj1 (tokenMatched_In _ _) M).
           ++ intros [[C _] | (_ & _ & ->)]; [contradiction |]. right. left. reflexivity.
        -- cbn. split; [intuition discriminate |].
           intros [[C _] | (_ & (a & b & [= <- <-] & _ & I) & _)]; [contradiction |].
           pose proof (proj2 (tokenMatched_In (token f) (first :: others)) I). congruence.
    + cbn. split; [intuition discriminate |].
      intros [[C _] | (_ & (a & b & [=] & _) & _)]. contradiction.
Qed.

(** X14 — with a secret, a request that has no token header, an empty
    first value, or no value equal to the secret gets the mimicry: the
    Apache answer is written for the request as it came, the connection is
    closed, a mimicking observation is recorded, and the filter hands back
    neither a response nor an error; the request keeps its token header. *)
Theorem Apply_rejects_with_mimicry (f : tokenFilter) (req : Request) (next : Next) :
  token f <> "" ->
  match ReqHeader req !! common.TokenHeader with
  | Some (first :: others) => first = "" \/ ~ In (token f) (first :: others)
  | _ => True
  end ->
  exists msg,
    Apply f req next
    = {| result := Returned None None;
         requestAfter := req;
         trace := [EvLogError msg; EvMimic true; EvApache req; EvConnClose] |}.
Proof.
  intros N Hbad. unfold Apply.
  destruct (String.eqb_spec (token f) "") as [E | _]; [contradiction |].
  destruct (ReqHeader req !! common.TokenHeader) as [[| first others] |];
    [eexists; reflexivity | | eexists; reflexivity].
  destruct (String.eqb_spec first "") as [E1 | N1]; [eexists; reflexivity |].
  destruct (tokenMatched (token f) (first :: others)) eqn:M.
  - apply (proj1 (tokenMatched_In _ _)) in M. destruct Hbad; contradiction.
  - eexists. reflexivity.
Qed.

(** X14 at work: a stale token. *)
Lemma Apply_rejects_with_mimicry_witness :
  let f := New "secret" in
  let req := example.request "GET" "example.org" [(common.TokenHeader, ["stale"])] in
  token f <> ""
  /\ result (Apply f req example.upstream) = Returned None None
  /\ ReqHeader (requestAfter (Apply f req example.upstream)) !! common.TokenHeader
     = Some ["stale"].
Proof.
  intros f req.
  assert (Hs : token f <> "") by discriminate.
  destruct (Apply_rejects_with_mimicry f req example.upstream Hs) as [msg E].
  { vm_compute. right. intros [C | []]. discriminate C. }
  split; [exact Hs |]. rewrite E. split; reflexivity.
Defined.

End TokenFilterMore.

(** ** redis: the channel *)

Section ChannelFacts.

Import measured redis channel.

Lemma act_kept (n : nat) (ch : Channel) (a : Action) :
  kept n ch -> kept (n + reports [a]) (act ch a).
Proof.
  unfold kept. intros (Hb & Hf & Hc). destruct a as [ctx stats delta final |]; cbn [act reports].
  - unfold NewMeasuredReporter.
    destruct (Z.ltb_spec (Z.of_nat (length (buffer ch))) capacity) as [L | G];
      cbn [buffer sent lost received]; repeat split.
    + rewrite length_app. cbn [length]. lia.
    + rewrite app_assoc, Hf. reflexivity.
    + rewrite length_app. cbn [length]. lia.
    + exact Hb.
    + exact Hf.
    + rewrite length_app. cbn [length]. lia.
  - unfold receive. destruct (buffer ch) as [| sac rest] eqn:B.
    + rewrite B. repeat split; [exact Hb | exact Hf | lia].
    + cbn [buffer sent lost received]. repeat split.
      * cbn [length] in Hb. lia.
      * rewrite <- app_assoc. exact Hf.
      * lia.
Qed.

Lemma run_kept (actions : list Action) :
  forall n ch, kept n ch -> kept (n + reports actions) (run ch actions).
Proof.
  induction actions as [| a actions IH]; intros n ch K.
  - cbn [run fold_left reports]. replace (n + 0)%nat with n by lia. exact K.
  - change (run ch (a :: actions)) with (run (act ch a) actions).
    replace (n + reports (a :: actions))%nat
      with (n + reports [a] + reports actions)%nat
      by (destruct a; cbn [reports]; lia).
    apply IH, act_kept, K.
Qed.

(** X15 — whatever the listeners report and whenever the reporter
    receives, the buffer of the channel never holds more than 10000
    samples; the samples the channel accepted are received in the order in
    which they were reported, none of them lost or repeated; and every
    report is either accepted or lost. *)
Theorem channel_bounded_and_fifo (actions : list Action) :
  let ch := run fresh actions in
  Z.of_nat (length (buffer ch)) <= 10000
  /\ (received ch ++ buffer ch)%list = sent ch
  /\ (length (sent ch) + length (lost ch))%nat = reports actions.
Proof.
  apply (run_kept actions 0 fresh). repeat split. cbn. unfold capacity. lia.
Qed.

Lemma run_loses_nothing (actions : list Action) :
  forall ch,
    lost ch = [] ->
    Z.of_nat (length (buffer ch)) + Z.of_nat (reports actions) <= capacity ->
    lost (run ch actions) = [].
Proof.
  induction actions as [| a actions IH]; intros ch HL HB.
  - exact HL.
  - change (run ch (a :: actions)) with (run (act ch a) actions).
    destruct a as [ctx stats delta final |].
    + change (reports (Report ctx stats delta final :: actions))
        with (S (reports actions)) in HB.
      rewrite Nat2Z.inj_succ in HB.
      assert (L : (Z.of_nat (length (buffer ch)) <? capacity) = true)
        by (apply Z.ltb_lt; lia).
      apply IH; cbn [act lost buffer]; unfold NewMeasuredReporter; rewrite L.
      * exact HL.
      * rewrite length_app, Nat2Z.inj_add. cbn [length]. lia.
    + change (reports (Receive :: actions)) with (reports actions) in HB.
      cbn [act]. unfold receive. destruct (buffer ch) as [| sac rest] eqn:B.
      * apply IH; [exact HL | rewrite B; exact HB].
      * apply IH; cbn [lost buffer]; [exact HL |]. cbn [length] in HB. lia.
Qed.


End ChannelFacts.

(** ** redis: the samples between two ticks *)

Section SampleFacts.

Import measured redis pointers.

Lemma write_eq (h : Heap) (p : Ptr) (v : Stats) : write h p v p = v.
Proof. unfold write. rewrite Pos.eqb_refl. reflexivity. Qed.

Lemma write_ne (h : Heap) (p q : Ptr) (v : Stats) : q <> p -> write h p v q = h q.
Proof. intros N. unfold write. destruct (Pos.eqb_spec q p); [contradiction | reflexivity]. Qed.

(** A sample for a device that has an object: the object gets the sum,
    also when the sample brings that same object; no other object
    changes. *)
Lemma onSample_existing (st : Loop) (sac : statsAndContext) (d : string) (e p : Ptr) :
  ctx sac !! "deviceid" = Some (StringValue d) ->
  statsByDeviceID st !! d = Some (Some e) ->
  stats sac = Some p ->
  exists st',
    onSample st sac = Some st'
    /\ statsByDeviceID st' = statsByDeviceID st
    /\ heap st' e = add (heap st e) (heap st p)
    /\ forall q, q <> e -> heap st' q = heap st q.
Proof.
  intros Hid He Hp. unfold onSample. rewrite Hid, He, Hp.
  eexists. split; [reflexivity |]. split; [reflexivity |]. cbn [heap]. split.
  - rewrite !write_eq. cbn [SentTotal RecvTotal]. unfold add. f_equal.
    destruct (Pos.eqb_spec p e) as [-> | N].
    + rewrite write_eq. reflexivity.
    + rewrite write_ne by exact N. reflexivity.
  - intros q N. rewrite !write_ne by exact N. reflexivity.
Qed.

Lemma onSample_first (st : Loop) (sac : statsAndContext) (d : string) :
  ctx sac !! "deviceid" = Some (StringValue d) ->
  statsByDeviceID st !! d = None ->
  onSample st sac
  = Some {| heap := heap st;
            statsByDeviceID := <[d := stats sac]> (statsByDeviceID st) |}.
Proof. intros Hid He. unfold onSample. rewrite Hid, He. reflexivity. Qed.

Lemma collected_objects (d : string) (sacs : list statsAndContext) (p : Ptr) :
  p ∈ collected d sacs -> p ∈ objects sacs.
Proof.
  induction sacs as [| sac sacs IH]; cbn [collected objects]; [auto |].
  assert (R : p ∈ collected d sacs ->
              p ∈ match stats sac with Some p0 => p0 :: objects sacs | None => objects sacs end).
  { intros I. destruct (stats sac); [apply elem_of_cons; right |]; auto. }
  destruct (ctx sac !! "deviceid") as [[d0 |] |]; [| destruct (stats sac); exact R ..].
  destruct (stats sac) as [p0 |]; [| exact IH].
  destruct (String.eqb d0 d); [| exact R].
  rewrite !elem_of_cons. intros [-> | I]; auto.
Qed.

Lemma fold_add_ext (h h' : Heap) (l : list Ptr) (a : Stats) :
  (forall p, p ∈ l -> h' p = h p) ->
  fold_left add (map h' l) a = fold_left add (map h l) a.
Proof.
  revert a. induction l as [| p l IH]; intros a E; [reflexivity |].
  cbn [map fold_left]. rewrite (E p) by (apply elem_of_cons; auto).
  apply IH. intros q I. apply E, elem_of_cons. auto.
Qed.

(** What a run of samples does, from any state of the loop whose objects
    are apart from one another and from those of the samples. *)
Lemma feed_invariant (sacs : list statsAndContext) :
  forall st,
    Forall wellTyped sacs ->
    Forall (fun sac => stats sac <> None) sacs ->
    NoDup (objects sacs) ->
    (forall d, statsByDeviceID st !! d <> Some None) ->
    (forall d1 d2 e, statsByDeviceID st !! d1 = Some (Some e) ->
                     statsByDeviceID st !! d2 = Some (Some e) -> d1 = d2) ->
    (forall d e, statsByDeviceID st !! d = Some (Some e) -> e ∉ objects sacs) ->
    exists st',
      feed st sacs = Some st'
      /\ (forall d,
            statsByDeviceID st' !! d
            = match statsByDeviceID st !! d with
              | Some x => Some x
              | None => match collected d sacs with
                        | [] => None
                        | p :: _ => Some (Some p)
                        end
              end)
      /\ (forall d e,
            statsByDeviceID st' !! d = Some (Some e) ->
            heap st' e
            = fold_left add
                (map (heap st)
                   match statsByDeviceID st !! d with
                   | Some _ => collected d sacs
                   | None => tail (collected d sacs)
                   end)
                (heap st e))
      /\ (forall q, (forall d, statsByDeviceID st' !! d <> Some (Some q)) ->
            heap st' q = heap st q).
Proof.
  induction sacs as [| sac sacs IH]; intros st HW HN HD Hnil Hinj Hfresh.
  - exists st. split; [reflexivity |]. split.
    + intros d. cbn [collected]. destruct (statsByDeviceID st !! d); reflexivity.
    + split; [| reflexivity]. intros d e _. cbn [collected tail].
      destruct (statsByDeviceID st !! d); reflexivity.
  - apply Forall_cons in HW as [Hsac HW]. apply Forall_cons in HN as [Hp HN].
    unfold wellTyped in Hsac. cbn [objects] in HD, Hfresh.
    destruct (stats sac) as [p |] eqn:Ep; [clear Hp | contradiction].
    apply NoDup_cons in HD as [Hp HD].
    assert (Hfresh' : forall d e, statsByDeviceID st !! d = Some (Some e) ->
                                  e <> p /\ e ∉ objects sacs).
    { intros d e He. apply not_elem_of_cons. exact (Hfresh d e He). }
    cbn [feed].
    destruct (ctx sac !! "deviceid") as [[d0 |] |] eqn:Hid; [| contradiction |].
    + destruct (statsByDeviceID st !! d0) as [[e |] |] eqn:He0.
      * (* the device has an object *)
        destruct (onSample_existing st sac d0 e p Hid He0 Ep)
          as (st1 & E1 & Hmap1 & Hsum & Hother).
        rewrite E1.
        destruct (IH st1 HW HN HD) as (st' & HF & Hmap & Hheap & Hrest).
        { rewrite Hmap1. exact Hnil. }
        { rewrite Hmap1. exact Hinj. }
        { rewrite Hmap1. intros d e' He'. exact (proj2 (Hfresh' d e' He')). }
        exists st'. split; [exact HF |]. rewrite Hmap1 in Hmap, Hheap. split.
        -- intros d. rewrite Hmap. cbn [collected]. rewrite Hid, Ep.
           destruct (statsByDeviceID st !! d) as [x |] eqn:Hd; [reflexivity |].
           destruct (String.eqb_spec d0 d) as [<- | N]; [congruence | reflexivity].
        -- split.
           ++ intros d e' He'. rewrite (Hheap d e' He'). cbn [collected].
              rewrite Hid, Ep.
              assert (Hd' : statsByDeviceID st' !! d = Some (Some e')) by exact He'.
              rewrite Hmap in He'.
              assert (Hsame : forall l, (forall q, q ∈ l -> q ∈ objects sacs) ->
                        fold_left add (map (heap st1) l) (heap st1 e')
                        = fold_left add (map (heap st) l) (heap st1 e')).
              { intros l Hl. apply fold_add_ext. intros q I. apply Hother.
                intros Eq. rewrite Eq in I.
                exact (proj2 (Hfresh' d0 e He0) (Hl e I)). }
              destruct (String.eqb_spec d0 d) as [<- | N].
              ** rewrite He0 in He' |- *. injection He' as He'. subst e'.
                 rewrite Hsame by (intros q; apply collected_objects).
                 rewrite Hsum. reflexivity.
              ** assert (Ne : e' <> e).
                 { intros Eq. subst e'.
                   destruct (statsByDeviceID st !! d) as [x |] eqn:Hd.
                   - injection He' as He'. subst x. apply N. exact (Hinj d0 d e He0 Hd).
                   - destruct (collected d sacs) as [| p1 l] eqn:Hc; [discriminate |].
                     injection He' as He'. subst p1.
                     apply (proj2 (Hfresh' d0 e He0)), (collected_objects d).
                     rewrite Hc. apply elem_of_cons. auto. }
                 rewrite (Hother e' Ne).
                 destruct (statsByDeviceID st !! d) as [x |].
                 --- rewrite <- (Hother e' Ne).
                     rewrite Hsame by (intros q; apply collected_objects).
                     reflexivity.
                 --- rewrite <- (Hother e' Ne). rewrite Hsame; [reflexivity |].
                     intros q I. apply (collected_objects d).
                     destruct (collected d sacs); [inversion I |].
                     apply elem_of_cons. auto.
           ++ intros q Hq. rewrite (Hrest q Hq). apply Hother. intros ->.
              apply (Hq d0). rewrite Hmap, He0. reflexivity.
      * exfalso. exact (Hnil d0 He0).
      * (* the first sample of the device *)
        rewrite (onSample_first st sac d0 Hid He0), Ep.
        set (st1 := {| heap := heap st;
                       statsByDeviceID := <[d0 := Some p]> (statsByDeviceID st) |}).
        destruct (IH st1 HW HN HD) as (st' & HF & Hmap & Hheap & Hrest).
        { intros d. cbn. destruct (String.eqb_spec d0 d) as [<- | N].
          - rewrite lookup_insert_eq. discriminate.
          - rewrite lookup_insert_ne by exact N. apply Hnil. }
        { intros d1 d2 e'. cbn.
          destruct (String.eqb_spec d0 d1) as [<- | N1];
            destruct (String.eqb_spec d0 d2) as [<- | N2];
            rewrite ?lookup_insert_eq, ?lookup_insert_ne by assumption.
          - reflexivity.
          - intros [= <-] H2. destruct (proj1 (Hfresh' d2 p H2)). reflexivity.
          - intros H1 [= <-]. destruct (proj1 (Hfresh' d1 p H1)). reflexivity.
          - apply Hinj. }
        { intros d e'. cbn. destruct (String.eqb_spec d0 d) as [<- | N].
          - rewrite lookup_insert_eq. intros [= <-]. exact Hp.
          - rewrite lookup_insert_ne by exact N. intros He'.
            exact (proj2 (Hfresh' d e' He')). }
        exists st'. split; [exact HF |]. cbn [statsByDeviceID heap st1] in Hmap, Hheap, Hrest.
        split.
        -- intros d. rewrite Hmap. cbn [collected]. rewrite Hid, Ep.
           destruct (String.eqb_spec d0 d) as [<- | N].
           ++ rewrite lookup_insert_eq, He0. reflexivity.
           ++ rewrite lookup_insert_ne by exact N. reflexivity.
        -- split; [| exact Hrest].
           intros d e' He'. rewrite (Hheap d e' He'). cbn [collected].
           rewrite Hid, Ep.
           destruct (String.eqb_spec d0 d) as [<- | N].
           ++ rewrite lookup_insert_eq, He0. reflexivity.
           ++ rewrite lookup_insert_ne by exact N. reflexivity.
    + (* a sample without a device id *)
      assert (E1 : onSample st sac = Some st) by (unfold onSample; rewrite Hid; reflexivity).
      rewrite E1.
      destruct (IH st HW HN HD Hnil Hinj) as (st' & HF & Hmap & Hheap & Hrest).
      { intros d e' He'. exact (proj2 (Hfresh' d e' He')). }
      exists st'. split; [exact HF |]. cbn [collected]. rewrite Hid. auto.
Qed.

Lemma collected_NoDup (d : string) (sacs : list statsAndContext) :
  NoDup (objects sacs) -> NoDup (collected d sacs).
Proof.
  induction sacs as [| sac sacs IH]; cbn [collected objects]; [auto |].
  intros HD.
  assert (HD' : NoDup (objects sacs)).
  { destruct (stats sac); [apply NoDup_cons in HD as [_ HD] |]; exact HD. }
  destruct (ctx sac !! "deviceid") as [[d0 |] |]; [| destruct (stats sac); auto ..].
  destruct (stats sac) as [p0 |]; [| auto].
  destruct (String.eqb d0 d); [| auto].
  apply NoDup_cons in HD as [Hp _]. apply NoDup_cons. split; [| auto].
  intros I. apply Hp, (collected_objects d), I.
Qed.

Lemma collected_owner (d1 d2 : string) (sacs : list statsAndContext) (q : Ptr) :
  NoDup (objects sacs) ->
  q ∈ collected d1 sacs -> q ∈ collected d2 sacs -> d1 = d2.
Proof.
  induction sacs as [| sac sacs IH]; cbn [collected objects].
  - intros _ I. inversion I.
  - intros HD.
    assert (HD' : NoDup (objects sacs)).
    { destruct (stats sac); [apply NoDup_cons in HD as [_ HD] |]; exact HD. }
    destruct (ctx sac !! "deviceid") as [[d0 |] |]; [| destruct (stats sac); auto ..].
    destruct (stats sac) as [p0 |]; [| auto].
    apply NoDup_cons in HD as [Hp _].
    destruct (String.eqb_spec d0 d1) as [E1 | N1], (String.eqb_spec d0 d2) as [E2 | N2];
      rewrite ?elem_of_cons.
    + congruence.
    + intros [-> | I1] I2; [| auto].
      destruct Hp. exact (collected_objects d2 sacs _ I2).
    + intros I1 [-> | I2]; [| auto].
      destruct Hp. exact (collected_objects d1 sacs _ I1).
    + auto.
Qed.

Lemma fold_add_sums (l : list Stats) :
  forall e,
    uint64 (SentTotal e) -> uint64 (RecvTotal e) ->
    SentTotal (fold_left add l e) = (SentTotal e + sumSent l) mod 2 ^ 64
    /\ RecvTotal (fold_left add l e) = (RecvTotal e + sumRecv l) mod 2 ^ 64.
Proof.
  unfold uint64. induction l as [| s l IH]; intros e HS HR.
  - cbn [fold_left sumSent sumRecv fold_right]. rewrite !Z.add_0_r.
    rewrite !Z.mod_small by lia. auto.
  - cbn [fold_left].
    destruct (IH (add e s)) as (Hs & Hr).
    { cbn. unfold goint.wrap_uint64. apply Z.mod_pos_bound. lia. }
    { cbn. unfold goint.wrap_uint64. apply Z.mod_pos_bound. lia. }
    rewrite Hs, Hr.
    change (sumSent (s :: l)) with (SentTotal s + sumSent l).
    change (sumRecv (s :: l)) with (RecvTotal s + sumRecv l).
    cbn [add SentTotal RecvTotal].
    unfold goint.wrap_uint64. rewrite !Zplus_mod_idemp_l.
    split; f_equal; lia.
Qed.

(** X17 — the loop keeps the pointers it is given.  When the samples
    between two ticks carry string device ids and objects of their own
    (none nil, no object twice), every device with samples ends up in the
    map with the object of its first sample; that object holds the sums
    of the sent and of the received totals of all the objects of the
    device, modulo 2^64, and the later objects are left as they were.  A
    device without samples has no entry. *)
Theorem feed_sums_into_first_object (h : Heap) (sacs : list statsAndContext) :
  (forall p, uint64 (SentTotal (h p)) /\ uint64 (RecvTotal (h p))) ->
  Forall wellTyped sacs ->
  Forall (fun sac => stats sac <> None) sacs ->
  NoDup (objects sacs) ->
  exists st',
    feed (start h) sacs = Some st'
    /\ forall deviceID,
         match collected deviceID sacs with
         | [] => statsByDeviceID st' !! deviceID = None
         | first :: later =>
             statsByDeviceID st' !! deviceID = Some (Some first)
             /\ SentTotal (heap st' first)
                = sumSent (map h (first :: later)) mod 2 ^ 64
             /\ RecvTotal (heap st' first)
                = sumRecv (map h (first :: later)) mod 2 ^ 64
             /\ Forall (fun q => heap st' q = h q) later
         end.
Proof.
  intros HU HW HN HD.
  destruct (feed_invariant sacs (start h) HW HN HD) as (st' & HF & Hmap & Hheap & Hrest).
  { intros d. cbn. rewrite lookup_empty. discriminate. }
  { intros d1 d2 e. cbn. rewrite lookup_empty. discriminate. }
  { intros d e. cbn. rewrite lookup_empty. discriminate. }
  exists st'. split; [exact HF |]. intros d.
  assert (Hd : statsByDeviceID st' !! d
               = match collected d sacs with [] => None | p :: _ => Some (Some p) end).
  { rewrite Hmap. cbn. rewrite lookup_empty. reflexivity. }
  pose proof (collected_NoDup d sacs HD) as HDd.
  destruct (collected d sacs) as [| first later] eqn:Hc; [exact Hd |].
  split; [exact Hd |].
  pose proof (Hheap d first Hd) as Hf. cbn [start statsByDeviceID heap] in Hf.
  rewrite lookup_empty, Hc in Hf. cbn [tail] in Hf.
  destruct (fold_add_sums (map h later) (h first) (proj1 (HU first)) (proj2 (HU first)))
    as (Hs & Hr).
  rewrite Hf. split; [exact Hs |]. split; [exact Hr |].
  apply Forall_forall. intros q Iq.
  change (heap st' q = heap (start h) q). apply Hrest. intros d' Hd'.
  rewrite Hmap in Hd'. cbn in Hd'. rewrite lookup_empty in Hd'.
  destruct (collected d' sacs) as [| q' l'] eqn:Hc'; [discriminate |].
  injection Hd' as Hd'. subst q'.
  assert (d = d').
  { apply (collected_owner d d' sacs q HD).
    - rewrite Hc. apply elem_of_cons. auto.
    - rewrite Hc'. apply elem_of_cons. auto. }
  subst d'. rewrite Hc in Hc'. injection Hc' as Hq _. subst q.
  apply NoDup_cons in HDd as [Hq _]. contradiction.
Qed.

Lemma feed_again (n : nat) (sac : statsAndContext) (d : string) (p : Ptr) :
  ctx sac !! "deviceid" = Some (StringValue d) ->
  stats sac = Some p ->
  forall st,
    statsByDeviceID st !! d = Some (Some p) ->
    uint64 (SentTotal (heap st p)) -> uint64 (RecvTotal (heap st p)) ->
    exists st',
      feed st (replicate n sac) = Some st'
      /\ statsByDeviceID st' = statsByDeviceID st
      /\ SentTotal (heap st' p) = (2 ^ Z.of_nat n * SentTotal (heap st p)) mod 2 ^ 64
      /\ RecvTotal (heap st' p) = (2 ^ Z.of_nat n * RecvTotal (heap st p)) mod 2 ^ 64
      /\ forall q, q <> p -> heap st' q = heap st q.
Proof.
  intros Hid Hp. induction n as [| n IH]; intros st Hd HS HR.
  - exists st. split; [reflexivity |]. split; [reflexivity |].
    unfold uint64 in HS, HR. change (2 ^ Z.of_nat 0) with 1.
    rewrite !Z.mul_1_l, !Z.mod_small by lia. auto.
  - cbn [replicate feed].
    destruct (onSample_existing st sac d p p Hid Hd Hp) as (st1 & E1 & Hmap1 & Hsum & Hother).
    rewrite E1.
    destruct (IH st1) as (st' & HF & Hmap & Hs & Hr & Hq).
    { rewrite Hmap1. exact Hd. }
    { rewrite Hsum. cbn. unfold goint.wrap_uint64. apply Z.mod_pos_bound. lia. }
    { rewrite Hsum. cbn. unfold goint.wrap_uint64. apply Z.mod_pos_bound. lia. }
    exists st'. split; [exact HF |]. split; [congruence |].
    rewrite Hs, Hr, Hsum. cbn [add SentTotal RecvTotal]. unfold goint.wrap_uint64.
    rewrite Nat2Z.inj_succ, Z.pow_succ_r by lia.
    rewrite !Zmult_mod_idemp_r.
    split; [f_equal; lia |]. split; [f_equal; lia |].
    intros q N. rewrite (Hq q N). exact (Hother q N).
Qed.

(** X18 — a listener that reports the same object again for a device does
    not add its totals once more: every repetition doubles what the
    object holds, since the map points to the very object that is added.
    After n repetitions the device has 2^n times the totals, modulo
    2^64. *)
Theorem feed_same_object_doubles (h : Heap) (sac : statsAndContext) (d : string)
    (p : Ptr) (n : nat) :
  ctx sac !! "deviceid" = Some (StringValue d) ->
  stats sac = Some p ->
  uint64 (SentTotal (h p)) -> uint64 (RecvTotal (h p)) ->
  exists st',
    feed (start h) (sac :: replicate n sac) = Some st'
    /\ statsByDeviceID st' !! d = Some (Some p)
    /\ SentTotal (heap st' p) = (2 ^ Z.of_nat n * SentTotal (h p)) mod 2 ^ 64
    /\ RecvTotal (heap st' p) = (2 ^ Z.of_nat n * RecvTotal (h p)) mod 2 ^ 64.
Proof.
  intros Hid Hp HS HR. cbn [feed].
  rewrite (onSample_first (start h) sac d Hid) by apply lookup_empty.
  rewrite Hp.
  destruct (feed_again n sac d p Hid Hp
              {| heap := h; statsByDeviceID := <[d := Some p]> ∅ |})
    as (st' & HF & Hmap & Hs & Hr & _).
  { apply lookup_insert_eq. }
  { exact HS. }
  { exact HR. }
  exists st'. split; [exact HF |]. rewrite Hmap. split; [apply lookup_insert_eq |].
  split; [exact Hs | exact Hr].
Qed.

(** X19 — a sample whose device id is not a string makes the loop panic,
    wherever it comes in the run and whatever the other samples are. *)
Theorem feed_panics_on_ill_typed_id (pre post : list statsAndContext)
    (sac : statsAndContext) (st : Loop) :
  ctx sac !! "deviceid" = Some OtherValue ->
  feed st (pre ++ sac :: post) = None.
Proof.
  intros Hbad. revert st. induction pre as [| p pre IH]; intros st.
  - cbn [app feed]. unfold onSample. rewrite Hbad. reflexivity.
  - cbn [app feed]. destruct (onSample st p) as [st1 |]; [apply IH | reflexivity].
Qed.

Lemma objects_uint64 (p : Ptr) :
  uint64 (SentTotal (example_more.objects p))
  /\ uint64 (RecvTotal (example_more.objects p)).
Proof.
  unfold uint64. destruct p as [[] | [] |]; cbn; lia.
Qed.

(** X17 at work: two samples of "a" around one of "b"; the sum of "a"
    wraps around. *)
Lemma feed_sums_into_first_object_witness :
  let sacs := [example_more.sample "a" 1%positive; example_more.sample "b" 3%positive;
               example_more.sample "a" 2%positive] in
  NoDup (objects sacs)
  /\ exists st',
       feed (start example_more.objects) sacs = Some st'
       /\ statsByDeviceID st' !! "a" = Some (Some 1%positive)
       /\ SentTotal (heap st' 1%positive) = 1
       /\ RecvTotal (heap st' 1%positive) = 30
       /\ heap st' 2%positive = example_more.objects 2%positive.
Proof.
  intros sacs.
  assert (ND : NoDup (objects sacs)) by (apply (bool_decide_unpack _); vm_compute; exact I).
  split; [exact ND |].
  destruct (feed_sums_into_first_object example_more.objects sacs objects_uint64)
    as (st' & HF & Hdev); [| | exact ND |].
  { repeat constructor; vm_compute; discriminate. }
  { repeat constructor; discriminate. }
  exists st'. split; [exact HF |].
  destruct (Hdev "a") as (Hm & Hs & Hr & Hl).
  split; [exact Hm |]. split; [rewrite Hs; reflexivity |].
  split; [rewrite Hr; reflexivity |].
  apply Forall_cons in Hl as [Hl _]. exact Hl.
Defined.

(** X18 at work: the object at 2, reported four times. *)
Lemma feed_same_object_doubles_witness :
  let sac := example_more.sample "a" 2%positive in
  exists st',
    feed (start example_more.objects) [sac; sac; sac; sac] = Some st'
    /\ SentTotal (heap st' 2%positive) = 16
    /\ RecvTotal (heap st' 2%positive) = 160.
Proof.
  intros sac.
  destruct (feed_same_object_doubles example_more.objects sac "a" 2%positive 3 eq_refl
              eq_refl (proj1 (objects_uint64 2%positive)) (proj2 (objects_uint64 2%positive)))
    as (st' & HF & _ & Hs & Hr).
  exists st'. split; [exact HF |]. split; [rewrite Hs | rewrite Hr]; reflexivity.
Defined.

(** X19 at work. *)
Lemma feed_panics_on_ill_typed_id_witness :
  ctx example_more.illTyped !! "deviceid" = Some OtherValue
  /\ feed (start example_more.objects)
       [example_more.sample "a" 1%positive; example_more.illTyped;
        example_more.sample "a" 2%positive]
     = None.
Proof.
  assert (Hb : ctx example_more.illTyped !! "deviceid" = Some OtherValue) by reflexivity.
  split; [exact Hb |].
  exact (feed_panics_on_ill_typed_id [example_more.sample "a" 1%positive]
           [example_more.sample "a" 2%positive] example_more.illTyped
           (start example_more.objects) Hb).
Defined.

End SampleFacts.

(** ** redis: the flush, further *)

Section FlushMore.

Import measured redis flush.

(** A pass over two runs of entries is the pass over the first run
    followed, when that one met no error, by the pass over the second run
    on the store it left; after an error nothing of the second run is
    done. *)
Lemma submitEach_app (now e : time.Time) (l1 l2 : list (string * Stats)) :
  forall rc,
    submitEach rc now e (l1 ++ l2)
    = let '(rc1, evs1, err1) := submitEach rc now e l1 in
      match err1 with
      | Some merr => (rc1, evs1, Some merr)
      | None =>
          let '(rc2, evs2, err2) := submitEach rc1 now e l2 in
          (rc2, (evs1 ++ evs2)%list, err2)
      end.
Proof.
  induction l1 as [| [d s] l1 IH]; intros rc.
  - cbn [app submitEach]. destruct (submitEach rc now e l2) as [[rc2 evs2] err2].
    reflexivity.
  - rewrite <- app_comm_cons, !submitEach_cons.
    destruct (Exec rc (clientKey d) _ _ e) as [rc1 [[a b] | merr]]; [| reflexivity].
    cbv zeta. rewrite IH.
    destruct (submitEach rc1 now e l1) as [[rc1' evs1] [merr |]]; [reflexivity |].
    destruct (submitEach rc1' now e l2) as [[rc2 evs2] err2]. reflexivity.
Qed.

Lemma Exec_written (rc : Client) (d : string) (s : Stats) (e : time.Time) :
  failing rc (clientKey d) = false ->
  Exec rc (clientKey d) (goint.wrap_int64 (RecvTotal s))
    (goint.wrap_int64 (SentTotal s)) e
  = ({| hashes := <[clientKey d := written rc d s e]> (hashes rc);
        failing := failing rc; applied := applied rc |},
     inl (bytesIn (written rc d s e), bytesOut (written rc d s e))).
Proof. intros F. rewrite (Exec_ok rc _ _ _ e F). reflexivity. Qed.

(** A pass in which no write fails. *)
Lemma submitEach_all_written (now e : time.Time) (entries : list (string * Stats)) :
  forall rc,
    NoDup entries.*1 ->
    (forall x, In x entries -> failing rc (clientKey x.1) = false) ->
    exists rc' evs,
      submitEach rc now e entries = (rc', evs, None)
      /\ (failing rc' = failing rc /\ applied rc' = applied rc)
      /\ attempts evs = entries.*1
      /\ flushed evs = entries.*1
      /\ (forall d s, In (d, s) entries ->
            hashes rc' !! clientKey d = Some (written rc d s e)
            /\ In (UsageSet d (reported (written rc d s e)) now) evs)
      /\ (forall k, ~ In k (map clientKey entries.*1) ->
            hashes rc' !! k = hashes rc !! k).
Proof.
  induction entries as [| [d0 s0] entries IH]; intros rc ND Hok.
  - exists rc, []. split; [reflexivity |]. split; [split; reflexivity |].
    do 2 (split; [reflexivity |]).
    split; [intros ? ? [] | intros; reflexivity].
  - rewrite fmap_cons in ND. cbn [fst] in ND. apply NoDup_cons in ND as [Hd0 ND].
    assert (F0 : failing rc (clientKey d0) = false)
      by (apply (Hok (d0, s0)); left; reflexivity).
    rewrite submitEach_cons, (Exec_written _ _ _ _ F0).
    set (rc1 := {| hashes := <[clientKey d0 := written rc d0 s0 e]> (hashes rc);
                   failing := failing rc; applied := applied rc |}).
    destruct (IH rc1 ND) as (rc' & evs & HS & [HF HAp] & HA & HFl & Hin & Hout).
    { intros x Hx. apply Hok. right. exact Hx. }
    cbv zeta. rewrite HS.
    exists rc', (Attempt d0 :: UsageSet d0 (reported (written rc d0 s0 e)) now :: evs).
    split; [reflexivity |]. split; [split; [exact HF | exact HAp] |].
    split; [change (d0 :: attempts evs = d0 :: entries.*1); f_equal; exact HA |].
    split; [change (d0 :: flushed evs = d0 :: entries.*1); f_equal; exact HFl |].
    assert (Hfresh : ~ In (clientKey d0) (map clientKey entries.*1)).
    { intros I. apply in_map_iff in I as (y & Hy & I). apply clientKey_inj in Hy.
      subst y. apply Hd0, list_elem_of_In, I. }
    split.
    + intros d s [[= <- <-] | I].
      * split; [| right; left; reflexivity].
        rewrite (Hout _ Hfresh). apply lookup_insert_eq.
      * destruct (Hin d s I) as [Hh Hu].
        assert (N : clientKey d0 <> clientKey d).
        { intros E. apply clientKey_inj in E. subst d0. apply Hd0.
          apply list_elem_of_fmap. exists (d, s). split; [reflexivity |].
          apply list_elem_of_In, I. }
        assert (W : written rc1 d s e = written rc d s e).
        { unfold written. cbn [hashes rc1]. rewrite lookup_insert_ne by exact N.
          reflexivity. }
        rewrite W in Hh, Hu. split; [exact Hh | right; right; exact Hu].
    + intros k Hk.
      assert (Hk1 : k <> clientKey d0) by (intros ->; apply Hk; left; reflexivity).
      assert (Hk2 : ~ In k (map clientKey entries.*1))
        by (intros I; apply Hk; right; exact I).
      rewrite (Hout k Hk2). cbn [hashes rc1]. apply lookup_insert_ne. congruence.
Qed.

(** X20 — when no write fails, the pass attempts and reports every device
    of the map once, in the order of the iteration, and hands back no
    error; every device's hash has its bytes-in grown by the received
    total and its bytes-out by the sent total, with the end of the month,
    in whole seconds, as expiry; the total given to [usage.Set] is the
    sum of the two new counters; and no other key of the store is
    touched. *)
Theorem submit_writes_every_device (rc : Client) (now : time.Time)
    (entries : list (string * Stats)) :
  NoDup entries.*1 ->
  (forall x, In x entries -> failing rc (clientKey x.1) = false) ->
  exists rc' evs,
    submit rc now entries = (rc', evs, None)
    /\ attempts evs = entries.*1
    /\ flushed evs = entries.*1
    /\ (forall d s, In (d, s) entries ->
          hashes rc' !! clientKey d = Some (written rc d s (endOfThisMonth now))
          /\ In (UsageSet d (reported (written rc d s (endOfThisMonth now))) now) evs)
    /\ (forall k, ~ In k (map clientKey entries.*1) ->
          hashes rc' !! k = hashes rc !! k).
Proof.
  intros ND Hok. unfold submit.
  destruct (submitEach_all_written now (endOfThisMonth now) entries rc ND Hok)
    as (rc' & evs & HS & _ & HA & HF & Hin & Hout).
  exists rc', evs. auto.
Qed.

(** X21 — when no write fails, the store that a pass leaves does not depend
    on the order in which [range] yields the entries. *)
Theorem submit_order_irrelevant (rc : Client) (now : time.Time)
    (entries1 entries2 : list (string * Stats)) :
  NoDup entries1.*1 ->
  entries1 ≡ₚ entries2 ->
  (forall x, In x entries1 -> failing rc (clientKey x.1) = false) ->
  hashes (submit rc now entries1).1.1 = hashes (submit rc now entries2).1.1
  /\ (submit rc now entries1).2 = None
  /\ (submit rc now entries2).2 = None.
Proof.
  intros ND1 HP Hok1.
  assert (ND2 : NoDup entries2.*1) by (rewrite <- HP; exact ND1).
  assert (Hok2 : forall x, In x entries2 -> failing rc (clientKey x.1) = false).
  { intros x Hx. apply Hok1. apply list_elem_of_In. rewrite HP.
    apply list_elem_of_In, Hx. }
  unfold submit.
  destruct (submitEach_all_written now (endOfThisMonth now) entries1 rc ND1 Hok1)
    as (rc1 & evs1 & HS1 & _ & _ & _ & Hin1 & Hout1).
  destruct (submitEach_all_written now (endOfThisMonth now) entries2 rc ND2 Hok2)
    as (rc2 & evs2 & HS2 & _ & _ & _ & Hin2 & Hout2).
  rewrite HS1, HS2. cbn [fst snd]. split; [| split; reflexivity].
  apply map_eq. intros k.
  destruct (In_dec string_dec k (map clientKey entries1.*1)) as [I | N].
  - apply in_map_iff in I as (d & <- & I).
    apply list_elem_of_In, list_elem_of_fmap in I as ([d' s] & -> & I).
    cbn [fst]. rewrite (proj1 (Hin1 d' s (proj1 (list_elem_of_In _ _) I))).
    rewrite HP in I.
    rewrite (proj1 (Hin2 d' s (proj1 (list_elem_of_In _ _) I))). reflexivity.
  - rewrite (Hout1 k N). symmetry. apply Hout2.
    intros I. apply N. apply list_elem_of_In. rewrite HP. apply list_elem_of_In, I.
Qed.

(** X22 — a pass that fails at device [d] is not undone: the devices
    yielded before [d] keep their complete writes, and they are the
    devices reported to [usage]; [d] is attempted and not reported, and
    its key holds what the commands of the failed transaction that took
    effect made of it; every other key is as the complete pass over the
    earlier devices leaves it; the error is handed back. *)
Theorem submit_keeps_writes_before_failure (rc : Client) (now : time.Time)
    (pre post : list (string * Stats)) (d : string) (s : Stats) :
  (forall x, In x pre -> failing rc (clientKey x.1) = false) ->
  failing rc (clientKey d) = true ->
  NoDup pre.*1 ->
  exists rc1 evs rc',
    submit rc now pre = (rc1, evs, None)
    /\ submit rc now (pre ++ (d, s) :: post)
       = (rc', (evs ++ [Attempt d])%list, Some "redis: transaction failed")
    /\ (forall d' s', In (d', s') pre ->
          hashes rc' !! clientKey d' = Some (written rc d' s' (endOfThisMonth now)))
    /\ hashes rc' !! clientKey d = leftBehind rc d s (endOfThisMonth now)
    /\ (forall k, k <> clientKey d -> hashes rc' !! k = hashes rc1 !! k).
Proof.
  intros Hok Hd ND.
  destruct (submitEach_all_written now (endOfThisMonth now) pre rc ND Hok)
    as (rc1 & evs & HS & [HF HAp] & _ & _ & Hin & Hout).
  assert (Hd1 : failing rc1 (clientKey d) = true) by (rewrite HF; exact Hd).
  destruct (Exec_fail rc1 (clientKey d) (goint.wrap_int64 (RecvTotal s))
              (goint.wrap_int64 (SentTotal s)) (endOfThisMonth now) Hd1)
    as (rc' & HE & _ & _ & Hown & Hother).
  assert (Hnew : forall d' s', In (d', s') pre -> clientKey d' <> clientKey d).
  { intros d' s' I E. apply clientKey_inj in E. subst d'.
    pose proof (Hok (d, s') I) as F. cbn [fst] in F. congruence. }
  exists rc1, evs, rc'. unfold submit. split; [exact HS |]. split; [| split; [| split]].
  - rewrite submitEach_app, HS, submitEach_cons, HE. reflexivity.
  - intros d' s' I. rewrite (Hother _ (Hnew d' s' I)). exact (proj1 (Hin d' s' I)).
  - rewrite Hown. unfold leftBehind. rewrite HAp. f_equal. apply Hout.
    intros I. apply in_map_iff in I as (y & Hy & I). apply clientKey_inj in Hy.
    subst y. apply list_elem_of_In, list_elem_of_fmap in I as ([d' s'] & E & I).
    cbn [fst] in E. subst d'.
    exact (Hnew d s' (proj1 (list_elem_of_In _ _) I) eq_refl).
  - exact Hother.
Qed.

End FlushMore.

(** ** redis: the expiry, further *)

Section ExpiryMore.

Import time calendar redis.

(** The day number of an instant, and the expiry computed for it. *)
Lemma endOfThisMonth_days (now : Time) :
  exists y m d,
    absDate (abs now) = (y, m, d)
    /\ validDate y m d
    /\ dayNumber y m d = abs now / secondsPerDay
    /\ nextMonthMidnight now
       = (dayNumber y m (daysIn (isLeap y) m) + 1) * secondsPerDay - unixToAbsolute.
Proof.
  destruct (absDate (abs now)) as [[y m] d] eqn:A.
  destruct (absDate_spec _ _ _ _ A) as [V D].
  exists y, m, d. split; [reflexivity |]. split; [exact V |]. split; [exact D |].
  assert (Y : Year now = y) by (unfold Year; rewrite A; reflexivity).
  assert (M : Month now = m) by (unfold Month; rewrite A; reflexivity).
  unfold nextMonthMidnight. rewrite Y, M.
  pose proof (dayNumber_following y m (proj1 V)) as F.
  destruct (followingMonth y m) as [y' m']. destruct F as [_ F].
  rewrite F. reflexivity.
Qed.

Lemma daysIn_bounds (leap : bool) (m : Z) : 28 <= daysIn leap m <= 31.
Proof. unfold daysIn. repeat case_match; lia. Qed.

(** The clock of a flush is before the midnight that begins the following
    month, by 31 days at most. *)
Lemma nextMonthMidnight_bounds (now : Time) :
  1 <= nextMonthMidnight now - (Unix now + zoneOffset now) <= 31 * secondsPerDay.
Proof.
  destruct (endOfThisMonth_days now) as (y & m & d & _ & [_ Hd] & D & ->).
  pose proof (daysIn_bounds (isLeap y) m) as B.
  rewrite (dayNumber_day y m d (daysIn (isLeap y) m)).
  remember (dayNumber y m d) as n eqn:Hn. clear Hn.
  unfold abs in D. remember (Unix now + zoneOffset now) as a eqn:Ha. clear Ha.
  unfold secondsPerDay, unixToAbsolute in *. Z.div_mod_to_equations. lia.
Qed.

Lemma dateOffset_FixedZone (offset unix : Z) :
  dateOffset (FixedZone offset) unix = offset.
Proof.
  unfold dateOffset, lookup, FixedZone. cbn.
  destruct (Z.eqb_spec offset 0) as [-> | N]; [reflexivity |].
  destruct ((unix - offset <? alpha) || (omega <=? unix - offset)); reflexivity.
Qed.

Lemma zoneOffset_FixedZone (t : Time) (offset : Z) :
  loc t = FixedZone offset -> zoneOffset t = offset.
Proof. intros E. unfold zoneOffset. rewrite E. reflexivity. Qed.

(** X23 — the expiry lies between the flush and 31 days after it, both
    bounds moved by the change of the clocks between the flush and the
    midnight that begins the following month: by the offset of the
    location at the flush less the offset with which that midnight is
    read.  Where the offset is fixed, the expiry is never before the
    flush and less than 31 days after it. *)
Theorem expiry_within_31_days (now : Time) :
  let shift := zoneOffset now - dateOffset (loc now) (nextMonthMidnight now) in
  (shift * Second <= unixNano (endOfThisMonth now) - unixNano now
   /\ unixNano (endOfThisMonth now) - unixNano now
      < (31 * secondsPerDay + shift) * Second)
  /\ (forall offset, loc now = FixedZone offset ->
        unixNano now <= unixNano (endOfThisMonth now)
        /\ unixNano (endOfThisMonth now) - unixNano now
           < 31 * secondsPerDay * Second).
Proof.
  intros shift.
  assert (G : shift * Second <= unixNano (endOfThisMonth now) - unixNano now
              /\ unixNano (endOfThisMonth now) - unixNano now
                 < (31 * secondsPerDay + shift) * Second).
  { subst shift. destruct (endOfThisMonth_unixNano now) as [-> _].
    pose proof (nextMonthMidnight_bounds now) as B. unfold Unix in B.
    remember (nextMonthMidnight now) as M eqn:HM.
    remember (dateOffset (loc now) M) as o eqn:Ho.
    remember (zoneOffset now) as z eqn:Hz.
    clear HM Ho Hz.
    unfold secondsPerDay, Second in *. Z.div_mod_to_equations. lia. }
  split; [exact G |].
  intros offset E. subst shift.
  rewrite E, dateOffset_FixedZone, (zoneOffset_FixedZone now offset E) in G.
  replace (offset - offset) with 0 in G by lia. lia.
Qed.

(** X24 — as time goes on in a location with a fixed offset, the expiry
    never moves back: a later flush writes the same or a later expiry. *)
Theorem expiry_monotone (now1 now2 : Time) (offset : Z) :
  loc now1 = FixedZone offset ->
  loc now2 = FixedZone offset ->
  unixNano now1 <= unixNano now2 ->
  unixNano (endOfThisMonth now1) <= unixNano (endOfThisMonth now2).
Proof.
  intros L1 L2 Hle.
  destruct (endOfThisMonth_unixNano now1) as [-> _].
  destruct (endOfThisMonth_unixNano now2) as [-> _].
  rewrite L1, L2, !dateOffset_FixedZone.
  destruct (endOfThisMonth_days now1) as (y1 & m1 & d1 & _ & [Hm1 Hd1] & D1 & ->).
  destruct (endOfThisMonth_days now2) as (y2 & m2 & d2 & A2 & [Hm2 Hd2] & D2 & ->).
  pose proof (zoneOffset_FixedZone now1 offset L1) as Z1.
  pose proof (zoneOffset_FixedZone now2 offset L2) as Z2.
  assert (N : abs now1 / secondsPerDay <= abs now2 / secondsPerDay).
  { unfold abs, Unix. rewrite Z1, Z2. unfold secondsPerDay, Second.
    Z.div_mod_to_equations. lia. }
  set (e1 := dayNumber y1 m1 (daysIn (isLeap y1) m1)).
  set (e2 := dayNumber y2 m2 (daysIn (isLeap y2) m2)).
  assert (e1 <= e2); [| unfold secondsPerDay, Second; lia].
  destruct (Z.le_gt_cases e1 e2) as [L | G]; [exact L | exfalso].
  assert (B2 : abs now2 / secondsPerDay <= e2).
  { rewrite <- D2. unfold e2. rewrite (dayNumber_day y2 m2 d2 (daysIn _ _)). lia. }
  assert (B1 : dayNumber y1 m1 1 <= abs now1 / secondsPerDay).
  { rewrite <- D1. rewrite (dayNumber_day y1 m1 1 d1). lia. }
  set (d' := abs now2 / secondsPerDay - dayNumber y1 m1 1 + 1).
  assert (E1 : e1 = dayNumber y1 m1 1 + (daysIn (isLeap y1) m1 - 1)).
  { unfold e1. apply dayNumber_day. }
  assert (A2' : absDate (abs now2) = (y1, m1, d')).
  { apply absDate_dayNumber.
    - split; [exact Hm1 |]. unfold d'. lia.
    - rewrite (dayNumber_day y1 m1 1 d'). unfold d'. lia. }
  rewrite A2 in A2'. injection A2' as -> -> _. unfold e1, e2 in G. lia.
Qed.

(** X24 at work: two flushes of December 2016. *)
Lemma expiry_monotone_witness :
  let later := Add example_flush.noon (86400 * Second) in
  unixNano example_flush.noon <= unixNano later
  /\ unixNano (endOfThisMonth example_flush.noon)
     <= unixNano (endOfThisMonth later).
Proof.
  intros later.
  assert (H : unixNano example_flush.noon <= unixNano later)
    by (vm_compute; discriminate).
  split; [exact H |].
  apply (expiry_monotone example_flush.noon later 0 eq_refl eq_refl H).
Defined.

End ExpiryMore.

(** ** The further properties at work *)

Section MoreExamples.

Import http filters versioncheck example example_more.

Lemma New_secure (percentage : float64.t) :
  New "<3.0.0" "https://upgrade.example.com/notice" [] percentage
  = inl (secure percentage).
Proof. reflexivity. Qed.

(** X2 at work: a POST of an outdated client. *)
Lemma Apply_other_methods_continue_witness :
  let req := request "POST" "example.org" (browser "2.0.0") in
  Method req <> MethodGet
  /\ Method req <> MethodConnect
  /\ result (Apply (checker (float64.of_Z 1)) hangup req 0 upstream) = upstream req.
Proof.
  intros req.
  assert (NG : Method req <> MethodGet) by discriminate.
  assert (NC : Method req <> MethodConnect) by discriminate.
  split; [exact NG |]. split; [exact NC |].
  rewrite (Apply_other_methods_continue (checker (float64.of_Z 1)) hangup req 0
             upstream NG NC).
  reflexivity.
Defined.

(** X4 at work: a GET of an outdated client that asks for JSON. *)
Lemma Apply_get_without_browser_headers_witness :
  let req := request "GET" "example.org"
               [(common.VersionHeader, ["2.0.0"]); ("Accept", ["application/json"]);
                ("User-Agent", ["Mozilla/5.0"])] in
  Method req = MethodGet
  /\ strings.HasPrefix (Get (ReqHeader req) "Accept") "text/html" = false
  /\ result (Apply (checker (float64.of_Z 1)) hangup req 0 upstream) = upstream req.
Proof.
  intros req.
  assert (HA : strings.HasPrefix (Get (ReqHeader req) "Accept") "text/html" = false)
    by (vm_compute; reflexivity).
  split; [reflexivity |]. split; [exact HA |].
  rewrite (Apply_get_without_browser_headers (checker (float64.of_Z 1)) hangup req 0
             upstream eq_refl (or_introl HA)).
  reflexivity.
Defined.

(** X5 at work: a CONNECT of an outdated client to port 443. *)
Lemma Apply_connect_default_port_only_witness :
  let req := request "CONNECT" "example.org:443" [(common.VersionHeader, ["2.0.0"])] in
  net.SplitHostPort (Host req) = Some ("example.org", "443")
  /\ matchVersion (checker (float64.of_Z 1)) req 0 = true
  /\ result (Apply (checker (float64.of_Z 1)) hangup req 0 upstream) = upstream req.
Proof.
  intros req.
  assert (HS : net.SplitHostPort (Host req) = Some ("example.org", "443"))
    by (vm_compute; reflexivity).
  split; [exact HS |]. split; [vm_compute; reflexivity |].
  rewrite (Apply_connect_default_port_only _ _ _ _ hangup req 0 upstream
             (New_checker (float64.of_Z 1)) eq_refl).
  - reflexivity.
  - rewrite HS. discriminate.
Defined.

(** X6 at work: a CONNECT to port 80 on a connection that cannot be
    written. *)
Lemma Apply_connect_write_error_witness :
  let req := request "CONNECT" "example.org:80" [(common.VersionHeader, ["2.0.0"])] in
  shouldRedirectOnConnect (checker (float64.of_Z 1)) req 0 = true
  /\ result (Apply (checker (float64.of_Z 1)) broken req 0 upstream)
     = Returned None (Some "broken pipe").
Proof.
  intros req.
  assert (HS : shouldRedirectOnConnect (checker (float64.of_Z 1)) req 0 = true)
    by (vm_compute; reflexivity).
  split; [exact HS |].
  exact (proj1 (Apply_connect_write_error (checker (float64.of_Z 1)) broken req 0
                  upstream "broken pipe" eq_refl HS eq_refl)).
Defined.

(** X7 at work: the tunnel of the examples. *)
Lemma redirectOnConnect_answers_302_witness :
  let c := checker (float64.of_Z 1) in
  let req := request "CONNECT" "example.org:80" [(common.VersionHeader, ["2.0.0"])] in
  writeErr tunnel = None
  /\ (redirectOnConnect c tunnel req).1 = Returned (Some (found302 c)) None.
Proof.
  intros c req. split; [reflexivity |].
  destruct (redirectOnConnect_answers_302 c tunnel req
              (request "GET" "example.org" []) eq_refl eq_refl) as (log & E & _).
  rewrite E. reflexivity.
Defined.

(** X8 at work: an outdated browser on its way to the notice. *)
Lemma Apply_to_rewrite_host_continues_witness :
  let c := checker (float64.of_Z 1) in
  let req := request "GET" "upgrade.example.com" (browser "2.0.0") in
  Host req = url.Host (rewriteURL c)
  /\ result (Apply c hangup req 0 upstream) = upstream req.
Proof.
  intros c req. split; [reflexivity |].
  rewrite (Apply_to_rewrite_host_continues c hangup req 0 upstream eq_refl).
  reflexivity.
Defined.

(** X9 at work: a browser that sends no version header. *)
Lemma matchVersion_without_version_header_witness :
  let c := checker (float64.of_Z 1) in
  let req := request "GET" "example.org" [] in
  Get (ReqHeader req) common.VersionHeader = ""
  /\ matchVersion c req 0 = true.
Proof.
  intros c req. split; [reflexivity |].
  rewrite (matchVersion_without_version_header c req 0
             "No Major.Minor.Patch elements found" eq_refl eq_refl).
  vm_compute. reflexivity.
Defined.

(** X11 at work: a refused dial stays as it is. *)
Lemma Dialer_leaves_other_dials_witness :
  (reach "tcp" "down:443").2 <> None
  /\ dial.Dialer (secure (float64.of_Z 1)) reach "tcp" "down:443"
     = (dial.Nil, Some "connection refused").
Proof.
  assert (N : (reach "tcp" "down:443").2 <> None) by discriminate.
  split; [exact N |].
  rewrite (Dialer_leaves_other_dials (secure (float64.of_Z 1)) reach "tcp" "down:443"
             (or_intror (or_introl N))).
  reflexivity.
Defined.

(** X12 at work: the dial to the notice served over https. *)
Lemma Dialer_upgrades_rewrite_address_witness :
  let c := secure (float64.of_Z 1) in
  New "<3.0.0" "https://upgrade.example.com/notice" [] (float64.of_Z 1) = inl c
  /\ dial.Dialer c reach "tcp" "upgrade.example.com:443"
     = (dial.TLSClient (dial.Dialed "tcp" "upgrade.example.com:443")
          "upgrade.example.com", None).
Proof.
  intros c. split; [exact (New_secure (float64.of_Z 1)) |].
  exact (Dialer_upgrades_rewrite_address "<3.0.0"
           "https://upgrade.example.com/notice" [] (float64.of_Z 1) c
           (rewriteURL c) reach "tcp" (dial.Dialed "tcp" "upgrade.example.com:443")
           eq_refl eq_refl (New_secure (float64.of_Z 1)) eq_refl).
Defined.

End MoreExamples.

Section MoreFlushExamples.

Import measured redis channel flush example_flush example_more.


(** X20 at work: a flush of two devices into a store that refuses
    neither. *)
Lemma submit_writes_every_device_witness :
  let rc := store refuse_b in
  let entries := [("a", totals 10 20); ("c", totals 5 5)] in
  NoDup entries.*1
  /\ (submit rc noon entries).2 = None
  /\ hashes (submit rc noon entries).1.1 !! clientKey "c"
     = Some (written rc "c" (totals 5 5) (endOfThisMonth noon)).
Proof.
  intros rc entries.
  assert (ND : NoDup entries.*1).
  { apply (bool_decide_unpack _). vm_compute. exact I. }
  split; [exact ND |].
  destruct (submit_writes_every_device rc noon entries ND)
    as (rc' & evs & E & _ & _ & W & _).
  { intros x [<- | [<- | []]]; reflexivity. }
  rewrite E. split; [reflexivity |].
  exact (proj1 (W "c" (totals 5 5) (or_intror (or_introl eq_refl)))).
Defined.

(** X21 at work: the same two devices in both orders. *)
Lemma submit_order_irrelevant_witness :
  let rc := store refuse_b in
  let entries1 := [("a", totals 10 20); ("c", totals 5 5)] in
  let entries2 := [("c", totals 5 5); ("a", totals 10 20)] in
  entries1 ≡ₚ entries2
  /\ hashes (submit rc noon entries1).1.1 = hashes (submit rc noon entries2).1.1.
Proof.
  intros rc entries1 entries2.
  assert (P : entries1 ≡ₚ entries2) by apply perm_swap.
  split; [exact P |].
  refine (proj1 (submit_order_irrelevant rc noon entries1 entries2 _ P _)).
  - apply (bool_decide_unpack _). vm_compute. exact I.
  - intros x [<- | [<- | []]]; reflexivity.
Defined.

(** X22 at work: "b" is refused after "a" has been written; of the
    transaction of "b" the sent total and the expiry took effect. *)
Lemma submit_keeps_writes_before_failure_witness :
  let rc := store refuse_b in
  let entries := [("a", totals 10 20); ("b", totals 1 2); ("c", totals 5 5)] in
  failing rc (clientKey "b") = true
  /\ (submit rc noon entries).2 = Some "redis: transaction failed"
  /\ hashes (submit rc noon entries).1.1 !! clientKey "a"
     = Some (written rc "a" (totals 10 20) (endOfThisMonth noon))
  /\ hashes (submit rc noon entries).1.1 !! clientKey "b"
     = Some {| bytesIn := 0; bytesOut := 1; expireAt := Some 1483228799 |}
  /\ hashes (submit rc noon entries).1.1 !! clientKey "c" = None.
Proof.
  intros rc entries.
  assert (F : failing rc (clientKey "b") = true) by reflexivity.
  split; [exact F |].
  destruct (submit_keeps_writes_before_failure rc noon [("a", totals 10 20)]
              [("c", totals 5 5)] "b" (totals 1 2))
    as (rc1 & evs & rc' & E1 & E & W & L & O).
  { intros x [<- | []]. reflexivity. }
  { exact F. }
  { apply NoDup_singleton. }
  change ([("a", totals 10 20)] ++ ("b", totals 1 2) :: [("c", totals 5 5)])%list
    with entries in E.
  rewrite E. cbn [fst snd]. split; [reflexivity |].
  split; [exact (W "a" (totals 10 20) (or_introl eq_refl)) |].
  split; [rewrite L; vm_compute; reflexivity |].
  rewrite (O (clientKey "c")) by discriminate.
  replace rc1 with (submit rc noon [("a", totals 10 20)]).1.1 by (rewrite E1; reflexivity).
  vm_compute. reflexivity.
Defined.

End MoreFlushExamples.

Section MoreExpiryExamples.

Import time calendar redis example_flush.

(** X23 at work: a flush at midnight of 1 October 2016 in Berlin, where
    the clocks are put back on 30 October: the expiry is 31 days and one
    hour later, less a nanosecond. *)
Lemma expiry_within_31_days_witness :
  zoneOffset october - dateOffset (loc october) (nextMonthMidnight october) = 3600
  /\ unixNano (endOfThisMonth october) - unixNano october
     = (31 * secondsPerDay + 3600) * Second - 1
  /\ unixNano (endOfThisMonth october) - unixNano october
     < (31 * secondsPerDay + 3600) * Second.
Proof.
  assert (S : zoneOffset october - dateOffset (loc october) (nextMonthMidnight october)
              = 3600) by (vm_compute; reflexivity).
  split; [exact S |]. split; [vm_compute; reflexivity |].
  pose proof (proj2 (proj1 (expiry_within_31_days october))) as B.
  rewrite S in B. exact B.
Defined.

End MoreExpiryExamples.
